(** * Neon Snake: the game-state engine of [src/App.tsx] and the login
      shim of [src/lib/storage.ts], embedded and verified.

    The React component keeps the game in a handful of [useState] cells and
    changes them from three places: the tick ([moveSnake]), the input
    handlers ([handleKeyDown], the [ControlButton] handlers) and [resetGame].
    Here the cells are the fields of one record and every handler is a
    function from record to record.  JavaScript numbers are integers
    throughout the engine (grid coordinates, score, speed) and are modelled
    by [Z]; the two real-valued quantities, the result of [Math.random()]
    and the frame timestamp, are modelled by [Q].

    A handler runs on the cells of the latest render and a state updater
    runs once.  The tick reads two cells that are missing from its
    dependency list; the record keeps what the tick holds of them (see
    [GameState]). *)

From Stdlib Require Import ZArith QArith Qround List Bool String Lia.
Import ListNotations.

#[local] Open Scope Z_scope.

(** ** Outcomes of a handler

    A handler either returns, raises a [TypeError] (reading a field of
    [undefined]), or is still inside the [while (true)] loop of
    [generateFood] when the fuel of the model runs out. *)

Inductive outcome (A : Type) : Type :=
| Done (a : A)
| TypeError
| OutOfFuel.

Arguments Done {A} a.
Arguments TypeError {A}.
Arguments OutOfFuel {A}.

Definition bind {A B : Type} (m : outcome A) (k : A -> outcome B) : outcome B :=
  match m with
  | Done a => k a
  | TypeError => TypeError
  | OutOfFuel => OutOfFuel
  end.

Notation "'let*' p ':=' m 'in' k" := (bind m (fun p => k))
  (at level 10, p pattern, m at level 100, k at level 200).

(** ** Data model *)

Record Point : Type := mkPoint { x : Z; y : Z }.

Record UserToken : Type := mkUserToken { username : string }.

(** [const GRID_SIZE = 20], [INITIAL_SNAKE], [INITIAL_DIRECTION],
    [BASE_SPEED], [SPEED_INCREMENT]. *)
Definition GRID_SIZE : Z := 20.
Definition INITIAL_SNAKE : list Point :=
  [ mkPoint 10 10; mkPoint 10 11; mkPoint 10 12 ].
Definition INITIAL_DIRECTION : Point := mkPoint 0 (-1).
Definition BASE_SPEED : Z := 150.
Definition SPEED_INCREMENT : Z := 2.

(** The [useState] cells of [App] that the engine reads or writes, and the
    environment it acts on.

    [rng] counts the [Math.random()] calls made so far, and [saved] lists
    the calls of [saveScore] issued so far (oldest first).

    [moveSnake] is a [useCallback] closure with the dependency list
    [[direction, food, isPaused, isGameOver, generateFood]]: React builds a
    new closure only in a render in which one of these changed, and the
    closure reads [currentUser] and [score] as they were in that render.
    [seenUser] and [seenScore] are what the closure in use holds.
    [highScore] and [showHistory] only feed the rendering. *)
Record GameState : Type := mkGameState {
  currentUser : option UserToken;
  snake : list Point;
  food : Point;
  direction : Point;
  isGameOver : bool;
  isPaused : bool;
  score : Z;
  speed : Z;
  rng : nat;
  saved : list (string * Z);
  seenUser : option UserToken;
  seenScore : Z
}.

(** A render that builds a new [moveSnake] closure. *)
Definition rebuild (st : GameState) : GameState :=
  mkGameState (currentUser st) (snake st) (food st) (direction st)
    (isGameOver st) (isPaused st) (score st) (speed st) (rng st) (saved st)
    (currentUser st) (score st).

(** The state setters returned by [useState].  [setFood] and
    [setDirection] are always given a fresh object, so the render that
    follows rebuilds the closure; [setIsPaused] and [setIsGameOver] do so
    when the boolean changes. *)
Definition setCurrentUser (u : option UserToken) (st : GameState) : GameState :=
  mkGameState u (snake st) (food st) (direction st) (isGameOver st)
    (isPaused st) (score st) (speed st) (rng st) (saved st)
    (seenUser st) (seenScore st).
Definition setSnake (s : list Point) (st : GameState) : GameState :=
  mkGameState (currentUser st) s (food st) (direction st) (isGameOver st)
    (isPaused st) (score st) (speed st) (rng st) (saved st)
    (seenUser st) (seenScore st).
Definition setFood (f : Point) (st : GameState) : GameState :=
  rebuild
    (mkGameState (currentUser st) (snake st) f (direction st) (isGameOver st)
       (isPaused st) (score st) (speed st) (rng st) (saved st)
       (seenUser st) (seenScore st)).
Definition setDirection (d : Point) (st : GameState) : GameState :=
  rebuild
    (mkGameState (currentUser st) (snake st) (food st) d (isGameOver st)
       (isPaused st) (score st) (speed st) (rng st) (saved st)
       (seenUser st) (seenScore st)).
Definition setIsGameOver (b : bool) (st : GameState) : GameState :=
  let st' :=
    mkGameState (currentUser st) (snake st) (food st) (direction st) b
      (isPaused st) (score st) (speed st) (rng st) (saved st)
      (seenUser st) (seenScore st) in
  if Bool.eqb b (isGameOver st) then st' else rebuild st'.
Definition setIsPaused (f : bool -> bool) (st : GameState) : GameState :=
  let st' :=
    mkGameState (currentUser st) (snake st) (food st) (direction st)
      (isGameOver st) (f (isPaused st)) (score st) (speed st) (rng st) (saved st)
      (seenUser st) (seenScore st) in
  if Bool.eqb (f (isPaused st)) (isPaused st) then st' else rebuild st'.
Definition setScore (f : Z -> Z) (st : GameState) : GameState :=
  mkGameState (currentUser st) (snake st) (food st) (direction st)
    (isGameOver st) (isPaused st) (f (score st)) (speed st) (rng st) (saved st)
    (seenUser st) (seenScore st).
Definition setSpeed (f : Z -> Z) (st : GameState) : GameState :=
  mkGameState (currentUser st) (snake st) (food st) (direction st)
    (isGameOver st) (isPaused st) (score st) (f (speed st)) (rng st) (saved st)
    (seenUser st) (seenScore st).
Definition setRng (n : nat) (st : GameState) : GameState :=
  mkGameState (currentUser st) (snake st) (food st) (direction st)
    (isGameOver st) (isPaused st) (score st) (speed st) n (saved st)
    (seenUser st) (seenScore st).

(** [saveScore(username, score)] of [storage.ts] as the engine sees it: a
    fire-and-forget insertion, recorded in [saved]. *)
Definition saveScore (user : string) (s : Z) (st : GameState) : GameState :=
  mkGameState (currentUser st) (snake st) (food st) (direction st)
    (isGameOver st) (isPaused st) (score st) (speed st) (rng st)
    (saved st ++ [(user, s)]) (seenUser st) (seenScore st).

(** The closure in use holds the current user and the current score. *)
Definition upToDate (st : GameState) : Prop :=
  seenUser st = currentUser st /\ seenScore st = score st.

(** [segment.x === p.x && segment.y === p.y] *)
Definition samePoint (segment p : Point) : bool :=
  (x segment =? x p) && (y segment =? y p).

(** [currentSnake.some(segment => segment.x === p.x && segment.y === p.y)] *)
Definition isOnSnake (currentSnake : list Point) (p : Point) : bool :=
  existsb (fun segment => samePoint segment p) currentSnake.

(** The wall test of [moveSnake]. *)
Definition hitsWall (newHead : Point) : bool :=
  (x newHead <? 0) || (x newHead >=? GRID_SIZE) ||
  (y newHead <? 0) || (y newHead >=? GRID_SIZE).

Section Engine.

(** [Math.random()]: the [n]-th call returns [random n].  ECMAScript
    promises a value in the half-open unit interval. *)
Variable random : nat -> Q.

(** [Math.floor(Math.random() * GRID_SIZE)] at call number [n]. *)
Definition randomCoordinate (n : nat) : Z :=
  Qfloor (random n * inject_Z GRID_SIZE).

(** The cell proposed by one round of the loop of [generateFood] when
    [n] calls of [Math.random()] came before it. *)
Definition proposal (n : nat) : Point :=
  mkPoint (randomCoordinate n) (randomCoordinate (S n)).

(** [generateFood]: propose cells until one is off the snake.  [fuel]
    bounds the number of rounds; the result carries the new count of
    [Math.random()] calls. *)
Fixpoint generateFood (fuel : nat) (calls : nat) (currentSnake : list Point)
  : outcome (Point * nat) :=
  match fuel with
  | O => OutOfFuel
  | S fuel' =>
      let newFood := proposal calls in
      if negb (isOnSnake currentSnake newFood)
      then Done (newFood, S (S calls))
      else generateFood fuel' (S (S calls)) currentSnake
  end.

(** [resetGame] *)
Definition resetGame (fuel : nat) (st : GameState) : outcome GameState :=
  let st := setSnake INITIAL_SNAKE st in
  let st := setDirection INITIAL_DIRECTION st in
  let st := setScore (fun _ => 0) st in
  let st := setIsGameOver false st in
  let st := setIsPaused (fun _ => false) st in
  let st := setSpeed (fun _ => BASE_SPEED) st in
  let* (newFood, calls) := generateFood fuel (rng st) INITIAL_SNAKE in
  Done (setFood newFood (setRng calls st)).

(** The logout button: [setCurrentUser(null); resetGame()]. *)
Definition logout (fuel : nat) (st : GameState) : outcome GameState :=
  resetGame fuel (setCurrentUser None st).

(** The body shared by the two collision branches of [moveSnake]:
    [setIsGameOver(true); if (currentUser) saveScore(currentUser.username,
    score); return prevSnake], where [currentUser] and [score] are the ones
    the closure holds. *)
Definition endGame (st : GameState) : GameState :=
  let st' := setIsGameOver true st in
  match seenUser st with
  | Some user => saveScore (username user) (seenScore st) st'
  | None => st'
  end.

(** [head + direction], the candidate head of [moveSnake]. *)
Definition nextHead (head dir : Point) : Point :=
  mkPoint (x head + x dir) (y head + y dir).

(** [moveSnake], the tick. *)
Definition moveSnake (fuel : nat) (st : GameState) : outcome GameState :=
  if isPaused st || isGameOver st then Done st
  else
    let prevSnake := snake st in
    match prevSnake with
    | [] => TypeError
    | head :: _ =>
        let newHead := nextHead head (direction st) in
        if hitsWall newHead then Done (endGame st)
        else if isOnSnake prevSnake newHead then Done (endGame st)
        else
          let newSnake := newHead :: prevSnake in
          if samePoint newHead (food st) then
            let st := setScore (fun s => s + 10) st in
            let st := setSpeed (fun prev => Z.max 50 (prev - SPEED_INCREMENT)) st in
            let* (newFood, calls) := generateFood fuel (rng st) newSnake in
            Done (setSnake newSnake (setFood newFood (setRng calls st)))
          else
            Done (setSnake (removelast newSnake) st)
    end.

End Engine.

(** ** Input handlers *)

(** [handleKeyDown]: the [switch (e.key)] of the keyboard effect.  The
    handler is re-registered after every render in which [direction]
    changed, so it always tests the current [direction] cell. *)
Definition handleKeyDown (key : string) (st : GameState) : GameState :=
  if (key =? "ArrowUp")%string then
    if y (direction st) =? 0 then setDirection (mkPoint 0 (-1)) st else st
  else if (key =? "ArrowDown")%string then
    if y (direction st) =? 0 then setDirection (mkPoint 0 1) st else st
  else if (key =? "ArrowLeft")%string then
    if x (direction st) =? 0 then setDirection (mkPoint (-1) 0) st else st
  else if (key =? "ArrowRight")%string then
    if x (direction st) =? 0 then setDirection (mkPoint 1 0) st else st
  else if (key =? " ")%string then setIsPaused negb st
  else st.

(** The four on-screen [ControlButton]s, named by their icons. *)
Inductive Control : Type := ChevronUp | ChevronLeft | ChevronDown | ChevronRight.

(** Their [onClick] handlers:
    [direction.y === 0 && setDirection({ x: 0, y: -1 })] and so on. *)
Definition onClick (c : Control) (st : GameState) : GameState :=
  match c with
  | ChevronUp =>
      if y (direction st) =? 0 then setDirection (mkPoint 0 (-1)) st else st
  | ChevronLeft =>
      if x (direction st) =? 0 then setDirection (mkPoint (-1) 0) st else st
  | ChevronDown =>
      if y (direction st) =? 0 then setDirection (mkPoint 0 1) st else st
  | ChevronRight =>
      if x (direction st) =? 0 then setDirection (mkPoint 1 0) st else st
  end.

(** A directional input event, from the keyboard or from a button. *)
Inductive Input : Type :=
| KeyDown (key : string)
| Click (c : Control).

Definition handleInput (i : Input) (st : GameState) : GameState :=
  match i with
  | KeyDown key => handleKeyDown key st
  | Click c => onClick c st
  end.

(** The inputs that arrive between two ticks, handled in order. *)
Definition handleInputs (inputs : list Input) (st : GameState) : GameState :=
  fold_left (fun s i => handleInput i s) inputs st.

(** The opposite of a direction. *)
Definition opposite (d : Point) : Point := mkPoint (- x d) (- y d).

(** The four unit vectors a direction ranges over. *)
Definition isDirection (d : Point) : Prop :=
  d = mkPoint 0 (-1) \/ d = mkPoint 0 1 \/ d = mkPoint (-1) 0 \/ d = mkPoint 1 0.

(** Two directions at a right angle. *)
Definition perpendicular (d e : Point) : Prop :=
  x d * x e + y d * y e = 0.

(** ** The simulation clock *)

(** [lastUpdateTimeRef.current], and the number of times the loop has
    called [moveSnake]. *)
Record Clock : Type := mkClock {
  lastUpdateTimeRef : Q;
  ticks : nat
}.

(** [a > b] on timestamps. *)
Definition Qgtb (a b : Q) : bool := negb (Qle_bool a b).

Section Loop.

Variable random : nat -> Q.

(** [loop(time)], one frame callback:
    [if (time - lastUpdateTimeRef.current > speed) { moveSnake();
    lastUpdateTimeRef.current = time; }].  The re-registration with
    [requestAnimationFrame] that follows is what delivers the next call. *)
Definition loop (fuel : nat) (time : Q) (w : Clock * GameState)
  : outcome (Clock * GameState) :=
  let (clock, st) := w in
  if Qgtb (time - lastUpdateTimeRef clock) (inject_Z (speed st)) then
    let* st' := moveSnake random fuel st in
    Done (mkClock time (S (ticks clock)), st')
  else Done (clock, st).

End Loop.

(** ** Executions *)

Section Executions.

Variable random : nat -> Q.

(** The state is running: neither paused nor over. *)
Definition running (st : GameState) : bool :=
  negb (isPaused st || isGameOver st).

(** The tick taken in [st] hits a wall or the snake itself. *)
Definition collides (st : GameState) : bool :=
  running st &&
  match snake st with
  | [] => false
  | head :: _ =>
      let newHead := nextHead head (direction st) in
      hitsWall newHead || isOnSnake (snake st) newHead
  end.

(** The tick taken in [st] consumes the food. *)
Definition eatsFood (st : GameState) : bool :=
  running st &&
  match snake st with
  | [] => false
  | head :: _ =>
      let newHead := nextHead head (direction st) in
      negb (hitsWall newHead) && negb (isOnSnake (snake st) newHead) &&
      samePoint newHead (food st)
  end.

(** One tick after another, each with its own fuel. *)
Fixpoint tickMany (fuels : list nat) (st : GameState) : outcome GameState :=
  match fuels with
  | [] => Done st
  | fuel :: fuels' =>
      let* st' := moveSnake random fuel st in
      tickMany fuels' st'
  end.

(** [Execution st N F st']: from [st], [N] ticks of which [F] consume food
    and none collides, interleaved with any inputs, lead to [st']. *)
Inductive Execution : GameState -> nat -> nat -> GameState -> Prop :=
| exec_stop st :
    Execution st 0 0 st
| exec_input st i N F st' :
    Execution (handleInput i st) N F st' ->
    Execution st N F st'
| exec_tick st fuel st1 N F st' :
    collides st = false ->
    moveSnake random fuel st = Done st1 ->
    Execution st1 N F st' ->
    Execution st (S N) ((if eatsFood st then 1 else 0) + F) st'.

(** The states reachable from a [resetGame] by ticks and inputs. *)
Inductive Reachable : GameState -> Prop :=
| reach_reset st0 fuel st :
    resetGame random fuel st0 = Done st ->
    Reachable st
| reach_tick st fuel st' :
    Reachable st ->
    moveSnake random fuel st = Done st' ->
    Reachable st'
| reach_input st i :
    Reachable st ->
    Reachable (handleInput i st).

(** The cells of the grid, row by row. *)
Definition allCells : list Point :=
  flat_map (fun cy => map (fun cx => mkPoint (Z.of_nat cx) (Z.of_nat cy))
                          (seq 0 (Z.to_nat GRID_SIZE)))
           (seq 0 (Z.to_nat GRID_SIZE)).

(** The number of grid cells a snake occupies. *)
Definition occupied (currentSnake : list Point) : nat :=
  List.length (filter (isOnSnake currentSnake) allCells).

(** [Math.random()] stays in the half-open unit interval. *)
Definition unitInterval : Prop :=
  forall n, (0 <= random n)%Q /\ (random n < 1)%Q.

(** From call number [calls] on, the rounds of [generateFood] propose
    every cell of the grid at some point: what remains of "uniformly
    random" once the random source is a given sequence. *)
Definition fairFrom (calls : nat) : Prop :=
  forall c, In c allCells -> exists j, proposal random (calls + 2 * j) = c.

End Executions.

(** ** The login shim of [storage.ts] *)

Module Storage.

(** The [error] object of a store response. *)
Record PostgrestError : Type := mkPostgrestError {
  code : string;
  message : string
}.

(** The row selected by [.select('password')]. *)
Record UserRow : Type := mkUserRow { password : string }.

(** What [await supabase.from(...)...single()] yields: a response
    [{ data, error }], or an exception carrying [err.message]. *)
Inductive Awaited : Type :=
| Resolved (data : option UserRow) (error : option PostgrestError)
| Rejected (err_message : string).

(** [{ success, token?, error? }] *)
Record LoginResult : Type := mkLoginResult {
  success : bool;
  token : option UserToken;
  error : option string
}.

(** The body of [loginUser] after the [await]. *)
Definition loginUser_on (response : Awaited) (username password : string)
  : LoginResult :=
  match response with
  | Resolved data error =>
      match error, data with
      | Some _, _ | _, None =>
          mkLoginResult false None (Some "User not found"%string)
      | None, Some row =>
          if negb (Storage.password row =? password)%string
          then mkLoginResult false None (Some "Incorrect password"%string)
          else mkLoginResult true (Some (mkUserToken username)) None
      end
  | Rejected err_message => mkLoginResult false None (Some err_message)
  end.

(** Modelled from the spec: the store client [./supabase] is not among the
    sources.  The account store is "a remote key-value/relational store
    accessed through a generic request/response client (create row, read
    row(s) by key, update)" whose failures are "network/remote failure,
    uniqueness conflicts on registration, not-found/credential-mismatch on
    login".  A store holds the rows of [snake_users] and is healthy, answers
    with an error object, or makes the request raise. *)
Inductive Health : Type :=
| Healthy
| Failing (e : PostgrestError)
| Raising (err_message : string).

Record AccountStore : Type := mkAccountStore {
  snake_users : list (string * string);
  health : Health
}.

(** The rows of [snake_users] whose [username] is [u]. *)
Definition rowsOf (store : AccountStore) (u : string) : list (string * string) :=
  filter (fun r => (fst r =? u)%string) (snake_users store).

(** Modelled from the spec: reading the single row with a given key,
    [.select('password').eq('username', u).single()].  Anything but exactly
    one row is answered with an error object and no data. *)
Definition selectSingle (store : AccountStore) (u : string) : Awaited :=
  match health store with
  | Raising m => Rejected m
  | Failing e => Resolved None (Some e)
  | Healthy =>
      match rowsOf store u with
      | [r] => Resolved (Some (mkUserRow (snd r))) None
      | _ => Resolved None
               (Some (mkPostgrestError "PGRST116"%string
                        "Cannot coerce the result to a single JSON object"%string))
      end
  end.

(** [loginUser] *)
Definition loginUser (store : AccountStore) (username password : string)
  : LoginResult :=
  loginUser_on (selectSingle store username) username password.

End Storage.

(** ** Concrete inputs *)

(** A random source that sweeps the grid row by row: round [i] of
    [generateFood] proposes the cell [(i mod 20, (i / 20) mod 20)]. *)
Definition sweep (n : nat) : Q :=
  let i := Nat.div n 2 in
  if Nat.even n
  then Z.of_nat (Nat.modulo i 20) # 20
  else Z.of_nat (Nat.modulo (Nat.div i 20) 20) # 20.

(** A random source stuck at zero: every round proposes the cell (0,0). *)
Definition stuck (n : nat) : Q := 0.

(** The scenario of the spec: the initial snake heading up, food right
    above the head. *)
Definition scenario : GameState :=
  mkGameState None INITIAL_SNAKE (mkPoint 10 9) INITIAL_DIRECTION
    false false 0 150 0 [] None 0.

(** The same scenario while the game is paused. *)
Definition pausedScenario : GameState :=
  setIsPaused (fun _ => true) scenario.

(** The grid walked as the ox ploughs: even rows left to right, odd rows
    right to left. *)
Definition boustrophedon : list Point :=
  flat_map (fun cy =>
              let row := map (fun cx => mkPoint (Z.of_nat cx) (Z.of_nat cy))
                             (seq 0 20) in
              if Nat.even cy then row else rev row)
           (seq 0 20).

(** A snake of 399 segments that covers every cell but (0,0), its head at
    (1,0) heading left towards the food on (0,0). *)
Definition lastBite : GameState :=
  mkGameState None (tl boustrophedon) (mkPoint 0 0) (mkPoint (-1) 0)
    false false 3960 50 0 [] None 3960.

(** The initial snake heading up with nobody logged in, one cell below the
    top wall. *)
Definition atTopWall : GameState :=
  mkGameState None [ mkPoint 10 0; mkPoint 10 1; mkPoint 10 2 ]
    (mkPoint 5 5) INITIAL_DIRECTION false false 0 150 0 [] None 0.

(** The same right after a login: the tick in use was built before it. *)
Definition justLoggedIn : GameState :=
  setCurrentUser (Some (mkUserToken "ada")) atTopWall.

(** The same once a render has rebuilt the tick. *)
Definition atTopWallLoggedIn : GameState :=
  rebuild justLoggedIn.

(** A snake of six segments about to bite its own tail cell. *)
Definition tailBite : GameState :=
  mkGameState (Some (mkUserToken "ada"))
    [ mkPoint 5 5; mkPoint 5 6; mkPoint 6 6; mkPoint 6 5; mkPoint 6 4; mkPoint 5 4 ]
    (mkPoint 1 1) (mkPoint 0 (-1)) false false 30 144 0 []
    (Some (mkUserToken "ada")) 30.

(** ** Shape of the board and longer runs *)

(** A cell of the grid. *)
Definition inGrid (p : Point) : Prop :=
  0 <= x p < GRID_SIZE /\ 0 <= y p < GRID_SIZE.

(** Two cells that share a side. *)
Definition adjacent (p q : Point) : Prop :=
  Z.abs (x p - x q) + Z.abs (y p - y q) = 1.

(** Every segment shares a side with the next one. *)
Fixpoint connected (s : list Point) : Prop :=
  match s with
  | p :: (q :: _) as rest => adjacent p q /\ connected rest
  | _ => True
  end.

Section Runs.

Variable random : nat -> Q.

(** [Evolves st st']: ticks and inputs, in any number and order and with
    collisions allowed, lead from [st] to [st']. *)
Inductive Evolves : GameState -> GameState -> Prop :=
| ev_stop st :
    Evolves st st
| ev_tick st fuel st1 st' :
    moveSnake random fuel st = Done st1 ->
    Evolves st1 st' ->
    Evolves st st'
| ev_input st i st' :
    Evolves (handleInput i st) st' ->
    Evolves st st'.

(** The frame callbacks of a run, each with its timestamp (and the fuel of
    its tick), delivered one after another by [requestAnimationFrame]. *)
Fixpoint runFrames (frames : list (nat * Q)) (w : Clock * GameState)
  : outcome (Clock * GameState) :=
  match frames with
  | [] => Done w
  | (fuel, time) :: frames' =>
      let* w' := loop random fuel time w in
      runFrames frames' w'
  end.

End Runs.

(** ** Scripted games *)

(** What happens to a game, one event after another: a tick, or an input. *)
Inductive Event : Type :=
| Tick (fuel : nat)
| Press (i : Input).

Section Plays.

Variable random : nat -> Q.

(** The events of a script, handled in order. *)
Fixpoint run (events : list Event) (st : GameState) : outcome GameState :=
  match events with
  | [] => Done st
  | Tick fuel :: events' =>
      let* st' := moveSnake random fuel st in
      run events' st'
  | Press i :: events' => run events' (handleInput i st)
  end.

End Plays.

(** The arrow key of a unit vector. *)
Definition arrowFor (d : Point) : string :=
  if x d =? 1 then "ArrowRight"%string
  else if x d =? -1 then "ArrowLeft"%string
  else if y d =? 1 then "ArrowDown"%string
  else "ArrowUp"%string.

(** The script that steers a snake along a path: before each tick, the
    arrow key of the next step when the step turns. *)
Fixpoint drive (head dir : Point) (path : list Point) : list Event :=
  match path with
  | [] => []
  | c :: rest =>
      let d := mkPoint (x c - x head) (y c - y head) in
      (if samePoint d dir then [Tick 1] else [Press (KeyDown (arrowFor d)); Tick 1])
      ++ drive c d rest
  end.

(** A walk from the head of the initial snake over every other free cell
    of the grid: up column 10, to and fro over the right half (which takes
    in column 10 below the initial snake), then to and fro up the left
    half; it ends on (9,0). *)
Definition tour : list Point :=
  map (fun cy => mkPoint 10 (Z.of_nat cy)) (rev (seq 0 10))
  ++ flat_map (fun cy =>
                 let xs := if Nat.ltb cy 13 then seq 11 9 else seq 10 10 in
                 map (fun cx => mkPoint (Z.of_nat cx) (Z.of_nat cy))
                     (if Nat.even cy then xs else rev xs))
              (seq 0 20)
  ++ flat_map (fun cy =>
                 map (fun cx => mkPoint (Z.of_nat cx) (Z.of_nat cy))
                     (if Nat.even cy then seq 0 10 else rev (seq 0 10)))
              (rev (seq 0 20)).

(** A random source that proposes the cells of [tour] one round after
    another (and the cell (0,0) ever after): the food always appears right
    in front of a snake that walks the tour. *)
Definition along (n : nat) : Q :=
  let c := nth (Nat.div n 2) tour (mkPoint 0 0) in
  Z.of_nat (Nat.modulo (Z.to_nat (if Nat.even n then x c else y c)) 20) # 20.

(** The state a game ends in. *)
Definition endOf (game : outcome GameState) : GameState :=
  match game with
  | Done st => st
  | _ => scenario
  end.

(** A long game: a reset, then the snake walks the tour and eats on every
    tick, up to the last cell but one. *)
Definition longStart : GameState := endOf (resetGame along 1 scenario).

Definition longScript : list Event :=
  drive (mkPoint 10 10) INITIAL_DIRECTION (removelast tour).

Definition nearlyFull : GameState := endOf (run along longScript longStart).

(** A short game on the sweeping source: a reset that puts the food right
    above the head, the tick that eats it, and a turn to the right towards
    the next food. *)
Definition shortStart : GameState :=
  endOf (resetGame sweep 1 (setRng 380 scenario)).

Definition shortScript : list Event := [Tick 1; Press (KeyDown "ArrowRight")].

Definition secondBite : GameState := endOf (run sweep shortScript shortStart).

(** ** Registration and the login form *)

Module Accounts.

Import Storage.

(** What [await supabase.from('snake_users').insert(...)] yields: a
    response [{ error }], or an exception carrying [err.message]. *)
Inductive Inserted : Type :=
| InsertResolved (error : option PostgrestError)
| InsertRejected (err_message : string).

(** [{ success, error? }] *)
Record RegisterResult : Type := mkRegisterResult {
  success : bool;
  error : option string
}.

(** The body of [registerUser] after the [await]. *)
Definition registerUser_on (response : Inserted) : RegisterResult :=
  match response with
  | InsertResolved (Some e) =>
      if (code e =? "23505")%string
      then mkRegisterResult false (Some "User already exists"%string)
      else mkRegisterResult false (Some (message e))
  | InsertResolved None => mkRegisterResult true None
  | InsertRejected err_message => mkRegisterResult false (Some err_message)
  end.

(** Modelled from the spec: the store client [./supabase] is not among the
    sources.  "create row" on the account store, with the "uniqueness
    conflicts on registration" the spec names: a healthy store refuses a
    username it already holds with the unique-violation code and otherwise
    appends the row; a failing store answers with its error object and a
    raising one makes the request raise, both without writing. *)
Definition insertRow (store : AccountStore) (u p : string)
  : Inserted * AccountStore :=
  match health store with
  | Raising m => (InsertRejected m, store)
  | Failing e => (InsertResolved (Some e), store)
  | Healthy =>
      match rowsOf store u with
      | [] => (InsertResolved None,
               mkAccountStore (snake_users store ++ [(u, p)]) Healthy)
      | _ :: _ =>
          (InsertResolved
             (Some (mkPostgrestError "23505"%string
                      "duplicate key value violates unique constraint"%string)),
           store)
      end
  end.

(** [registerUser]: the insertion of [{ username, password }] and the
    reading of its response. *)
Definition registerUser (store : AccountStore) (username password : string)
  : RegisterResult * AccountStore :=
  let (response, store') := insertRow store username password in
  (registerUser_on response, store').

(** [e || fallback] on an optional string: [undefined] and the empty
    string are falsy. *)
Definition orElse (e : option string) (fallback : string) : string :=
  match e with
  | Some m => if (m =? "")%string then fallback else m
  | None => fallback
  end.

(** The [useState] cells of [Auth]; [formError] is its [error] cell. *)
Record AuthForm : Type := mkAuthForm {
  isLogin : bool;
  username : string;
  password : string;
  formError : string
}.

Definition setError (e : string) (form : AuthForm) : AuthForm :=
  mkAuthForm (isLogin form) (username form) (password form) e.

Section Form.

(** [String.prototype.trim], taken as it comes. *)
Variable trim : string -> string.

(** [handleSubmit]: the form after the submission, the token handed to
    [onLogin] if any, and the store after the request. *)
Definition handleSubmit (store : AccountStore) (form : AuthForm)
  : AuthForm * option UserToken * AccountStore :=
  let form := setError ""%string form in
  if (trim (username form) =? "")%string || (trim (password form) =? "")%string
  then (setError "Username and password are required"%string form, None, store)
  else if isLogin form then
    let result := loginUser store (username form) (password form) in
    match Storage.success result, token result with
    | true, Some t => (form, Some t, store)
    | _, _ => (setError (orElse (Storage.error result) "Login failed"%string) form,
               None, store)
    end
  else
    let (result, store') := registerUser store (username form) (password form) in
    if success result
    then (form, Some (mkUserToken (username form)), store')
    else (setError (orElse (error result) "Registration failed"%string) form,
          None, store').

End Form.

End Accounts.

(** ** Basic facts *)

Lemma samePoint_eq (p q : Point) : samePoint p q = true <-> p = q.
Proof.
  destruct p as [px py], q as [qx qy]; unfold samePoint; simpl.
  rewrite andb_true_iff, !Z.eqb_eq. split.
  - intros [-> ->]; reflexivity.
  - intros E; injection E; auto.
Qed.

Lemma isOnSnake_In (s : list Point) (p : Point) :
  isOnSnake s p = true <-> In p s.
Proof.
  unfold isOnSnake. rewrite existsb_exists. split.
  - intros [q [Hin Hq]]. apply samePoint_eq in Hq. now subst.
  - intros Hin. exists p. split; [assumption | now apply samePoint_eq].
Qed.

Lemma isOnSnake_not_In (s : list Point) (p : Point) :
  isOnSnake s p = false <-> ~ In p s.
Proof.
  rewrite <- isOnSnake_In. destruct (isOnSnake s p); intuition congruence.
Qed.

Lemma hitsWall_false (p : Point) :
  hitsWall p = false <-> 0 <= x p < GRID_SIZE /\ 0 <= y p < GRID_SIZE.
Proof.
  unfold hitsWall, GRID_SIZE. rewrite !orb_false_iff.
  rewrite !Z.ltb_ge, !Z.geb_leb, !Z.leb_gt. lia.
Qed.

Lemma hitsWall_true (p : Point) :
  hitsWall p = true <->
  x p < 0 \/ GRID_SIZE <= x p \/ y p < 0 \/ GRID_SIZE <= y p.
Proof.
  unfold hitsWall, GRID_SIZE. rewrite !orb_true_iff.
  rewrite !Z.ltb_lt, !Z.geb_leb, !Z.leb_le. lia.
Qed.

Lemma allCells_spec (p : Point) :
  In p allCells <-> 0 <= x p < GRID_SIZE /\ 0 <= y p < GRID_SIZE.
Proof.
  unfold allCells, GRID_SIZE. rewrite in_flat_map. split.
  - intros [cy [Hy Hin]]. apply in_map_iff in Hin as [cx [<- Hx]].
    apply in_seq in Hx, Hy. simpl in *. lia.
  - intros [Hx Hy]. exists (Z.to_nat (y p)). split.
    + apply in_seq. lia.
    + apply in_map_iff. exists (Z.to_nat (x p)). split.
      * destruct p as [px py]; simpl in *. f_equal; lia.
      * apply in_seq. lia.
Qed.

(** A snake that occupies fewer cells than the grid has leaves one free. *)
Lemma free_cell_exists (s : list Point) :
  (occupied s < List.length allCells)%nat ->
  exists c, In c allCells /\ isOnSnake s c = false.
Proof.
  unfold occupied. generalize allCells as cells.
  induction cells as [|c cells IH]; simpl; intros Hlt.
  - lia.
  - destruct (isOnSnake s c) eqn:Hc.
    + simpl in Hlt. destruct IH as [d [Hd Hfree]]; [lia|].
      exists d; auto.
    + exists c; auto.
Qed.

Lemma allCells_length : List.length allCells = 400%nat.
Proof. reflexivity. Qed.

Section RandomFacts.

Variable random : nat -> Q.
Hypothesis random_unit : unitInterval random.

Lemma randomCoordinate_range (n : nat) :
  0 <= randomCoordinate random n < GRID_SIZE.
Proof.
  unfold randomCoordinate. destruct (random_unit n) as [Hlo Hhi].
  assert (Hpos : (0 < inject_Z GRID_SIZE)%Q) by reflexivity.
  split.
  - change 0 with (Qfloor 0). apply Qfloor_resp_le.
    apply Qmult_le_0_compat; [assumption | now apply Qlt_le_weak].
  - apply Z.lt_nge. intros Hge.
    rewrite Zle_Qle in Hge.
    pose proof (Qfloor_le (random n * inject_Z GRID_SIZE)) as Hfl.
    pose proof (Qmult_lt_compat_r _ _ _ Hpos Hhi) as Hlt.
    rewrite Qmult_1_l in Hlt.
    apply (Qlt_not_le _ _ Hlt). eapply Qle_trans; eassumption.
Qed.

Lemma proposal_in_grid (n : nat) : In (proposal random n) allCells.
Proof.
  apply allCells_spec. unfold proposal; simpl.
  split; apply randomCoordinate_range.
Qed.

End RandomFacts.

(** ** The food loop *)

Section FoodLoop.

Variable random : nat -> Q.

(** What [generateFood] returns is the first proposal off the snake. *)
Lemma generateFood_sound (fuel calls : nat) (s : list Point) (p : Point) (calls' : nat) :
  generateFood random fuel calls s = Done (p, calls') ->
  exists j, (j < fuel)%nat /\ p = proposal random (calls + 2 * j) /\
            calls' = (calls + 2 * j + 2)%nat /\ isOnSnake s p = false.
Proof.
  revert calls. induction fuel as [|fuel IH]; simpl; intros calls H.
  - discriminate.
  - destruct (isOnSnake s (proposal random calls)) eqn:Hon; simpl in H.
    + apply IH in H as [j [Hj [Hp [Hc Hfree]]]].
      exists (S j). repeat split; try lia; try assumption.
      rewrite Hp. f_equal. lia.
    + injection H as <- <-. exists 0%nat.
      rewrite Nat.add_0_r. repeat split; try lia; assumption.
Qed.

(** Once some round proposes a free cell, the loop returns on the first
    such round, whatever fuel is left beyond it. *)
Lemma generateFood_first (j calls : nat) (s : list Point) :
  isOnSnake s (proposal random (calls + 2 * j)) = false ->
  exists k, (k <= j)%nat /\
    isOnSnake s (proposal random (calls + 2 * k)) = false /\
    forall fuel, (k < fuel)%nat ->
      generateFood random fuel calls s
      = Done (proposal random (calls + 2 * k), (calls + 2 * k + 2)%nat).
Proof.
  revert calls. induction j as [|j IH]; intros calls Hfree.
  - exists 0%nat. rewrite Nat.add_0_r in *. repeat split; try lia; try assumption.
    intros [|fuel] Hf; [lia|]. simpl. rewrite Hfree. simpl.
    do 2 f_equal. lia.
  - destruct (isOnSnake s (proposal random calls)) eqn:Hon.
    + destruct (IH (S (S calls))) as [k [Hk [Hkfree Hrun]]].
      { replace (S (S calls) + 2 * j)%nat with (calls + 2 * S j)%nat by lia.
        assumption. }
      exists (S k).
      replace (calls + 2 * S k)%nat with (S (S calls) + 2 * k)%nat by lia.
      repeat split; try lia; try assumption.
      intros [|fuel] Hf; [lia|]. simpl. rewrite Hon. simpl.
      rewrite Hrun by lia. do 2 f_equal.
    + exists 0%nat. rewrite Nat.add_0_r. repeat split; try lia; try assumption.
      intros [|fuel] Hf; [lia|]. simpl. rewrite Hon. simpl.
      do 2 f_equal. lia.
Qed.

(** If every round proposes an occupied cell the loop never returns. *)
Lemma generateFood_never (s : list Point) :
  (forall n, isOnSnake s (proposal random n) = true) ->
  forall fuel calls, generateFood random fuel calls s = OutOfFuel.
Proof.
  intros Hall. induction fuel as [|fuel IH]; intros calls; simpl.
  - reflexivity.
  - rewrite Hall. simpl. apply IH.
Qed.

End FoodLoop.

(** ** The sweeping random source *)

Lemma sweep_unit : unitInterval sweep.
Proof.
  intros n. unfold sweep.
  assert (B : forall k, (0 <= Z.of_nat (Nat.modulo k 20) # 20)%Q /\
                        (Z.of_nat (Nat.modulo k 20) # 20 < 1)%Q).
  { intros k. pose proof (Nat.mod_upper_bound k 20 ltac:(lia)) as Hk.
    unfold Qle, Qlt; cbn [Qnum Qden]. lia. }
  destruct (Nat.even n); apply B.
Qed.

Lemma sweep_fair : fairFrom sweep 0.
Proof.
  intros c Hc.
  assert (H : forallb (fun j => samePoint (proposal sweep (2 * j))
                                          (nth j allCells (mkPoint 0 0)))
                      (seq 0 400) = true)
    by (vm_compute; reflexivity).
  rewrite forallb_forall in H.
  destruct (In_nth allCells c (mkPoint 0 0) Hc) as [j [Hj Hnth]].
  rewrite allCells_length in Hj.
  exists j. rewrite <- Hnth. apply samePoint_eq, H, in_seq. lia.
Qed.

Lemma stuck_unit : unitInterval stuck.
Proof. intros n. unfold stuck. split; [apply Qle_refl | reflexivity]. Qed.

(** With the source stuck at zero the loop never leaves a snake that
    covers (0,0): the fairness of the source is what makes it return. *)
Lemma generateFood_stuck_never (fuel calls : nat) :
  generateFood stuck fuel calls [ mkPoint 0 0 ] = OutOfFuel.
Proof.
  apply generateFood_never. intros n. reflexivity.
Qed.

(** ** Food placement *)

Lemma food_loop_returns
  (random : nat -> Q) (calls : nat) (currentSnake : list Point) :
  unitInterval random ->
  fairFrom random calls ->
  (occupied currentSnake < 400)%nat ->
  exists rounds newFood,
    (forall fuel, (rounds < fuel)%nat ->
       generateFood random fuel calls currentSnake
       = Done (newFood, (calls + 2 * rounds + 2)%nat)) /\
    0 <= x newFood < 20 /\ 0 <= y newFood < 20 /\
    ~ In newFood currentSnake /\
    isOnSnake currentSnake newFood = false.
Proof.
  intros Hunit Hfair Hocc.
  destruct (free_cell_exists currentSnake) as [c [Hc Hfree]].
  { rewrite allCells_length. exact Hocc. }
  destruct (Hfair c Hc) as [j Hj].
  destruct (generateFood_first random j calls currentSnake) as [k [_ [Hk Hrun]]].
  { rewrite Hj. exact Hfree. }
  exists k, (proposal random (calls + 2 * k)).
  pose proof (proposal_in_grid random Hunit (calls + 2 * k)) as Hin.
  apply allCells_spec in Hin. unfold GRID_SIZE in Hin.
  split; [exact Hrun|].
  split; [tauto|]. split; [tauto|].
  split; [now apply isOnSnake_not_In | exact Hk].
Qed.

(** If no round from [calls] on proposes a free cell the loop never
    returns. *)
Lemma generateFood_never_from
  (random : nat -> Q) (s : list Point) (fuel calls : nat) :
  (forall round, isOnSnake s (proposal random (calls + 2 * round)) = true) ->
  generateFood random fuel calls s = OutOfFuel.
Proof.
  revert calls. induction fuel as [|fuel IH]; intros calls Hall; simpl.
  - reflexivity.
  - pose proof (Hall 0%nat) as H0. rewrite Nat.add_0_r in H0. rewrite H0. simpl.
    apply IH. intros round.
    replace (S (S calls) + 2 * round)%nat with (calls + 2 * S round)%nat by lia.
    apply Hall.
Qed.

(** Once some round proposes a free cell the loop returns, on the first
    round that does. *)
Lemma food_loop_first
  (random : nat -> Q) (calls round : nat) (currentSnake : list Point) :
  unitInterval random ->
  isOnSnake currentSnake (proposal random (calls + 2 * round)) = false ->
  exists rounds newFood,
    (rounds <= round)%nat /\
    newFood = proposal random (calls + 2 * rounds) /\
    (forall fuel, (rounds < fuel)%nat ->
       generateFood random fuel calls currentSnake
       = Done (newFood, (calls + 2 * rounds + 2)%nat)) /\
    0 <= x newFood < 20 /\ 0 <= y newFood < 20 /\
    ~ In newFood currentSnake /\
    isOnSnake currentSnake newFood = false.
Proof.
  intros Hunit Hfree.
  destruct (generateFood_first random round calls currentSnake Hfree)
    as [k [Hle [Hk Hrun]]].
  exists k, (proposal random (calls + 2 * k)).
  pose proof (proposal_in_grid random Hunit (calls + 2 * k)) as Hin.
  apply allCells_spec in Hin. unfold GRID_SIZE in Hin.
  split; [exact Hle|]. split; [reflexivity|]. split; [exact Hrun|].
  split; [tauto|]. split; [tauto|].
  split; [now apply isOnSnake_not_In | exact Hk].
Qed.




(** ** The branches of the tick *)

Section Tick.

Variable random : nat -> Q.

Lemma running_flags (st : GameState) :
  isPaused st = false -> isGameOver st = false ->
  isPaused st || isGameOver st = false.
Proof. intros -> ->; reflexivity. Qed.

Lemma moveSnake_idle (fuel : nat) (st : GameState) :
  isPaused st || isGameOver st = true -> moveSnake random fuel st = Done st.
Proof. intros H. unfold moveSnake. now rewrite H. Qed.

Lemma moveSnake_wall (fuel : nat) (st : GameState) (head : Point) (body : list Point) :
  isPaused st || isGameOver st = false ->
  snake st = head :: body ->
  hitsWall (nextHead head (direction st)) = true ->
  moveSnake random fuel st = Done (endGame st).
Proof.
  intros Hrun Hs Hw. unfold moveSnake. rewrite Hrun, Hs. cbv zeta.
  now rewrite Hw.
Qed.

Lemma moveSnake_self (fuel : nat) (st : GameState) (head : Point) (body : list Point) :
  isPaused st || isGameOver st = false ->
  snake st = head :: body ->
  isOnSnake (snake st) (nextHead head (direction st)) = true ->
  moveSnake random fuel st = Done (endGame st).
Proof.
  intros Hrun Hs Hon. unfold moveSnake. rewrite Hrun. rewrite Hs in *. cbv zeta.
  rewrite Hon. now destruct (hitsWall _).
Qed.

Lemma moveSnake_step (fuel : nat) (st : GameState) (head : Point) (body : list Point) :
  isPaused st || isGameOver st = false ->
  snake st = head :: body ->
  hitsWall (nextHead head (direction st)) = false ->
  isOnSnake (snake st) (nextHead head (direction st)) = false ->
  samePoint (nextHead head (direction st)) (food st) = false ->
  moveSnake random fuel st
  = Done (setSnake (removelast (nextHead head (direction st) :: snake st)) st).
Proof.
  intros Hrun Hs Hw Hon Hf. unfold moveSnake. rewrite Hrun. rewrite Hs in *.
  cbv zeta. now rewrite Hw, Hon, Hf.
Qed.

Lemma moveSnake_eat (fuel : nat) (st : GameState) (head : Point) (body : list Point) :
  isPaused st || isGameOver st = false ->
  snake st = head :: body ->
  hitsWall (nextHead head (direction st)) = false ->
  isOnSnake (snake st) (nextHead head (direction st)) = false ->
  samePoint (nextHead head (direction st)) (food st) = true ->
  moveSnake random fuel st
  = let newSnake := nextHead head (direction st) :: snake st in
    let st1 := setSpeed (fun prev => Z.max 50 (prev - SPEED_INCREMENT))
                 (setScore (fun s => s + 10) st) in
    let* (newFood, calls) := generateFood random fuel (rng st) newSnake in
    Done (setSnake newSnake (setFood newFood (setRng calls st1))).
Proof.
  intros Hrun Hs Hw Hon Hf. unfold moveSnake. rewrite Hrun. rewrite Hs in *.
  cbv zeta. now rewrite Hw, Hon, Hf.
Qed.

(** Dropping the last element of a snake with a new head in front. *)
Lemma removelast_cons_length (p : Point) (s : list Point) :
  List.length (removelast (p :: s)) = List.length s.
Proof.
  revert p. induction s as [|q s IH]; intros p.
  - reflexivity.
  - change (removelast (p :: q :: s)) with (p :: removelast (q :: s)).
    change (List.length (p :: removelast (q :: s)))
      with (S (List.length (removelast (q :: s)))).
    rewrite IH. reflexivity.
Qed.

End Tick.

(** ** Eating *)

Lemma lastBite_full (p : Point) :
  In p allCells -> isOnSnake (food lastBite :: snake lastBite) p = true.
Proof.
  assert (H : forallb (isOnSnake (food lastBite :: snake lastBite)) allCells = true)
    by (vm_compute; reflexivity).
  rewrite forallb_forall in H. apply H.
Qed.

(** C1 (amended): in every running state whose candidate head is the food
    cell, inside the grid and off the snake, the tick returns once the
    random source (in the unit interval) proposes a cell off the grown
    snake, on every fuel beyond the first round that does; it adds exactly
    10 to the score, sets the speed to [max 50 (speed - 2)], puts the new
    head in front of the unchanged snake (one segment more, no tail dropped)
    and places the new food on that proposed cell, a grid cell off the grown
    snake.  If no round ever proposes a free cell, as when the grown snake
    fills the grid, the tick never returns.  In particular the scenario
    yields snake [(10,9),(10,10),(10,11),(10,12)], score 10, speed 148. *)
Theorem moveSnake_food_collision (random : nat -> Q) :
  unitInterval random ->
  (forall (st : GameState) (head : Point) (body : list Point) (round : nat),
     isPaused st = false -> isGameOver st = false ->
     snake st = head :: body ->
     nextHead head (direction st) = food st ->
     hitsWall (nextHead head (direction st)) = false ->
     ~ In (nextHead head (direction st)) (snake st) ->
     isOnSnake (nextHead head (direction st) :: snake st)
       (proposal random (rng st + 2 * round)) = false ->
     exists rounds st',
       (rounds <= round)%nat /\
       (forall fuel, (rounds < fuel)%nat -> moveSnake random fuel st = Done st') /\
       score st' = score st + 10 /\
       speed st' = Z.max 50 (speed st - 2) /\
       snake st' = nextHead head (direction st) :: snake st /\
       List.length (snake st') = S (List.length (snake st)) /\
       food st' = proposal random (rng st + 2 * rounds) /\
       ~ In (food st') (snake st') /\
       (0 <= x (food st') < 20 /\ 0 <= y (food st') < 20) /\
       isGameOver st' = false /\ isPaused st' = false /\
       direction st' = direction st /\ saved st' = saved st) /\
  (forall (st : GameState) (head : Point) (body : list Point),
     isPaused st = false -> isGameOver st = false ->
     snake st = head :: body ->
     nextHead head (direction st) = food st ->
     hitsWall (nextHead head (direction st)) = false ->
     ~ In (nextHead head (direction st)) (snake st) ->
     (forall round,
        isOnSnake (nextHead head (direction st) :: snake st)
          (proposal random (rng st + 2 * round)) = true) ->
     forall fuel, moveSnake random fuel st = OutOfFuel) /\
  (forall round,
     isOnSnake (mkPoint 10 9 :: INITIAL_SNAKE) (proposal random (2 * round)) = false ->
     exists rounds st',
       (forall fuel, (rounds < fuel)%nat -> moveSnake random fuel scenario = Done st') /\
       snake st' = [ mkPoint 10 9; mkPoint 10 10; mkPoint 10 11; mkPoint 10 12 ] /\
       score st' = 10 /\ speed st' = 148).
Proof.
  intros Hunit.
  assert (General :
    forall (st : GameState) (head : Point) (body : list Point) (round : nat),
     isPaused st = false -> isGameOver st = false ->
     snake st = head :: body ->
     nextHead head (direction st) = food st ->
     hitsWall (nextHead head (direction st)) = false ->
     ~ In (nextHead head (direction st)) (snake st) ->
     isOnSnake (nextHead head (direction st) :: snake st)
       (proposal random (rng st + 2 * round)) = false ->
     exists rounds st',
       (rounds <= round)%nat /\
       (forall fuel, (rounds < fuel)%nat -> moveSnake random fuel st = Done st') /\
       score st' = score st + 10 /\
       speed st' = Z.max 50 (speed st - 2) /\
       snake st' = nextHead head (direction st) :: snake st /\
       List.length (snake st') = S (List.length (snake st)) /\
       food st' = proposal random (rng st + 2 * rounds) /\
       ~ In (food st') (snake st') /\
       (0 <= x (food st') < 20 /\ 0 <= y (food st') < 20) /\
       isGameOver st' = false /\ isPaused st' = false /\
       direction st' = direction st /\ saved st' = saved st).
  { intros st head body round Hp Hg Hs Hfood Hwall Hself Hprop.
    destruct (food_loop_first random (rng st) round
                (nextHead head (direction st) :: snake st) Hunit Hprop)
      as [rounds [newFood [Hle [Hnew [Hrun [Hx [Hy [Hfree _]]]]]]]].
    exists rounds.
    eexists. split; [exact Hle|]. split.
    - intros fuel Hfuel.
      rewrite (moveSnake_eat random fuel st head body); trivial.
      + cbv zeta. rewrite (Hrun fuel Hfuel). simpl. reflexivity.
      + now apply running_flags.
      + now apply isOnSnake_not_In.
      + now apply samePoint_eq.
    - simpl. rewrite Hp, Hg. unfold SPEED_INCREMENT.
      repeat (split; [reflexivity|]).
      split; [exact Hnew|].
      split; [exact Hfree|]. split; [split; assumption|].
      repeat (split; [reflexivity|]). reflexivity. }
  split; [exact General|]. split.
  - intros st head body Hp Hg Hs Hfood Hwall Hself Hall fuel.
    rewrite (moveSnake_eat random fuel st head body); trivial.
    + cbv zeta.
      change (rng (setSpeed _ (setScore _ st))) with (rng st).
      rewrite generateFood_never_from by exact Hall. reflexivity.
    + now apply running_flags.
    + now apply isOnSnake_not_In.
    + now apply samePoint_eq.
  - intros round Hprop.
    destruct (General scenario (mkPoint 10 10) [mkPoint 10 11; mkPoint 10 12] round)
      as [rounds [st' [_ [Hrun [Hscore [Hspeed [Hsnake _]]]]]]];
      try reflexivity; try assumption.
    + simpl. intuition discriminate.
    + exists rounds, st'. split; [exact Hrun|].
      rewrite Hsnake, Hscore, Hspeed. repeat split.
Qed.

Lemma moveSnake_food_collision_witness :
  exists rounds st',
    (forall fuel, (rounds < fuel)%nat -> moveSnake stuck fuel scenario = Done st') /\
    snake st' = [ mkPoint 10 9; mkPoint 10 10; mkPoint 10 11; mkPoint 10 12 ] /\
    score st' = 10 /\ speed st' = 148.
Proof.
  apply (proj2 (proj2 (moveSnake_food_collision stuck stuck_unit)) 0%nat).
  reflexivity.
Defined.

(** Two states in which the tick does none of this.  While the game is
    paused the candidate head may sit on the food, yet the tick changes
    nothing.  And when the snake takes the last free cell of the grid, no
    cell is left for the food: whatever the random source proposes, the
    food loop, and with it the tick, never returns. *)
Lemma moveSnake_food_collision_counterexample :
  (isPaused pausedScenario = true /\
   snake pausedScenario = mkPoint 10 10 :: [ mkPoint 10 11; mkPoint 10 12 ] /\
   nextHead (mkPoint 10 10) (direction pausedScenario) = food pausedScenario /\
   hitsWall (food pausedScenario) = false /\
   isOnSnake (snake pausedScenario) (food pausedScenario) = false /\
   forall random fuel,
     moveSnake random fuel pausedScenario = Done pausedScenario /\
     score pausedScenario = 0) /\
  (isPaused lastBite = false /\ isGameOver lastBite = false /\
   hd_error (snake lastBite) = Some (mkPoint 1 0) /\
   List.length (snake lastBite) = 399%nat /\
   nextHead (mkPoint 1 0) (direction lastBite) = food lastBite /\
   hitsWall (food lastBite) = false /\
   isOnSnake (snake lastBite) (food lastBite) = false /\
   forall random, unitInterval random ->
     forall fuel, moveSnake random fuel lastBite = OutOfFuel).
Proof.
  split.
  - do 5 (split; [reflexivity|]). intros random fuel. split; reflexivity.
  - do 7 (split; [reflexivity|]). intros random Hunit fuel.
    rewrite (moveSnake_eat random fuel lastBite (mkPoint 1 0)
               (tl (tl boustrophedon))); try reflexivity.
    cbv zeta.
    rewrite generateFood_never; [reflexivity|].
    intros n. apply lastBite_full. now apply proposal_in_grid.
Qed.

(** ** Collisions *)

Lemma endGame_fields (st : GameState) :
  isGameOver (endGame st) = true /\ snake (endGame st) = snake st /\
  score (endGame st) = score st /\ speed (endGame st) = speed st /\
  food (endGame st) = food st /\ direction (endGame st) = direction st /\
  isPaused (endGame st) = isPaused st /\
  saved (endGame st)
  = saved st ++ match seenUser st with
                | Some user => [(username user, seenScore st)]
                | None => []
                end.
Proof.
  unfold endGame, setIsGameOver.
  destruct (seenUser st) as [user|], (Bool.eqb true (isGameOver st)); simpl;
    rewrite ?app_nil_r; repeat split.
Qed.

(** C3: in every running state, if the candidate head [head + direction]
    is a cell of the snake as it is before the move (the tail cell that
    this tick would drop included), the tick returns with [isGameOver] set
    and with the snake and the score as they were. *)
Theorem moveSnake_self_collision
  (random : nat -> Q) (fuel : nat) (st : GameState) (head : Point) (body : list Point) :
  isPaused st = false -> isGameOver st = false ->
  snake st = head :: body ->
  In (nextHead head (direction st)) (snake st) ->
  exists st',
    moveSnake random fuel st = Done st' /\
    isGameOver st' = true /\ snake st' = snake st /\ score st' = score st.
Proof.
  intros Hp Hg Hs Hin. exists (endGame st).
  split.
  - apply (moveSnake_self random fuel st head body); trivial.
    + now apply running_flags.
    + now apply isOnSnake_In.
  - pose proof (endGame_fields st). tauto.
Qed.

Lemma moveSnake_self_collision_witness :
  last (snake tailBite) (mkPoint 0 0) = nextHead (mkPoint 5 5) (direction tailBite) /\
  exists st',
    moveSnake stuck 0 tailBite = Done st' /\
    isGameOver st' = true /\ snake st' = snake tailBite /\ score st' = score tailBite.
Proof.
  split; [reflexivity|].
  apply (moveSnake_self_collision stuck 0 tailBite (mkPoint 5 5)
           [ mkPoint 5 6; mkPoint 6 6; mkPoint 6 5; mkPoint 6 4; mkPoint 5 4 ]);
    try reflexivity.
  simpl. tauto.
Defined.

(** C4 (amended): in every running state, if the candidate head has a
    coordinate below 0 or not below 20, the tick returns with [isGameOver]
    set and the snake and score as they were; it submits a score exactly
    once when the user it holds is logged in, and not at all when it holds
    none: with the tick up to date, the current score under the current
    user's name when somebody is logged in, nothing when nobody is.  If the
    candidate head is inside the grid, a tick that returns has set
    [isGameOver] only when the candidate head is on the snake. *)
Theorem moveSnake_wall_collision
  (random : nat -> Q) (fuel : nat) (st : GameState) (head : Point) (body : list Point) :
  isPaused st = false -> isGameOver st = false ->
  snake st = head :: body ->
  ((x (nextHead head (direction st)) < 0 \/ 20 <= x (nextHead head (direction st)) \/
    y (nextHead head (direction st)) < 0 \/ 20 <= y (nextHead head (direction st))) ->
   exists st',
     moveSnake random fuel st = Done st' /\
     isGameOver st' = true /\ snake st' = snake st /\ score st' = score st /\
     saved st' = saved st ++ match seenUser st with
                             | Some user => [(username user, seenScore st)]
                             | None => []
                             end /\
     (upToDate st ->
      saved st' = saved st ++ match currentUser st with
                              | Some user => [(username user, score st)]
                              | None => []
                              end)) /\
  ((0 <= x (nextHead head (direction st)) < 20 /\
    0 <= y (nextHead head (direction st)) < 20) ->
   forall st',
     moveSnake random fuel st = Done st' ->
     (isGameOver st' = true <-> In (nextHead head (direction st)) (snake st)) /\
     (isGameOver st' = false -> saved st' = saved st)).
Proof.
  intros Hp Hg Hs.
  pose proof (running_flags st Hp Hg) as Hrun.
  split.
  - intros Hout. exists (endGame st). split.
    + apply (moveSnake_wall random fuel st head body); trivial.
      now apply hitsWall_true.
    + pose proof (endGame_fields st) as F.
      do 4 (split; [tauto|]).
      intros [<- <-]. tauto.
  - intros Hin st' Hstep.
    assert (Hw : hitsWall (nextHead head (direction st)) = false)
      by now apply hitsWall_false.
    destruct (isOnSnake (snake st) (nextHead head (direction st))) eqn:Hon.
    + rewrite (moveSnake_self random fuel st head body) in Hstep by trivial.
      injection Hstep as <-. pose proof (endGame_fields st) as F.
      apply isOnSnake_In in Hon. split; [tauto|].
      intros Hno. destruct F as [F _]. congruence.
    + assert (Hnot : ~ In (nextHead head (direction st)) (snake st))
        by now apply isOnSnake_not_In.
      destruct (samePoint (nextHead head (direction st)) (food st)) eqn:Hf.
      * rewrite (moveSnake_eat random fuel st head body) in Hstep by trivial.
        cbv zeta in Hstep.
        destruct (generateFood random fuel (rng st) _) as [[newFood calls]| |];
          simpl in Hstep; try discriminate.
        injection Hstep as <-. simpl. rewrite Hg.
        split; [split; [discriminate | tauto] | reflexivity].
      * rewrite (moveSnake_step random fuel st head body) in Hstep by trivial.
        injection Hstep as <-. simpl. rewrite Hg.
        split; [split; [discriminate | tauto] | reflexivity].
Qed.

Lemma moveSnake_wall_collision_witness :
  exists st',
    moveSnake stuck 0 atTopWallLoggedIn = Done st' /\
    isGameOver st' = true /\ snake st' = snake atTopWallLoggedIn /\
    score st' = 0 /\ saved st' = [("ada"%string, 0)].
Proof.
  destruct (proj1 (moveSnake_wall_collision stuck 0 atTopWallLoggedIn (mkPoint 10 0)
                     [ mkPoint 10 1; mkPoint 10 2 ] eq_refl eq_refl eq_refl))
    as [st' [Hstep [Hover [Hsnake [Hscore [_ Hsaved]]]]]].
  - simpl. lia.
  - exists st'. repeat (split; [assumption|]).
    apply Hsaved. split; reflexivity.
Defined.

(** With nobody logged in, the wall ends the game and no score is
    submitted. *)
Lemma moveSnake_wall_collision_counterexample :
  isPaused atTopWall = false /\ isGameOver atTopWall = false /\
  currentUser atTopWall = None /\ upToDate atTopWall /\
  nextHead (mkPoint 10 0) (direction atTopWall) = mkPoint 10 (-1) /\
  exists st',
    moveSnake stuck 0 atTopWall = Done st' /\
    isGameOver st' = true /\ saved st' = [].
Proof.
  do 3 (split; [reflexivity|]). split; [split; reflexivity|].
  split; [reflexivity|].
  eexists. split; [reflexivity|]. split; reflexivity.
Qed.

(** A login alone rebuilds nothing: until the direction, the food or a
    flag changes, the tick in use still holds no user, and the wall ends the
    game without a submission. *)
Lemma moveSnake_stale_login :
  currentUser justLoggedIn = Some (mkUserToken "ada") /\
  seenUser justLoggedIn = None /\
  exists st',
    moveSnake stuck 0 justLoggedIn = Done st' /\
    isGameOver st' = true /\ saved st' = [].
Proof.
  do 2 (split; [reflexivity|]).
  eexists. split; [reflexivity|]. split; reflexivity.
Qed.

(** ** Paused and finished games *)

(** C8: in a state that is paused or over, a tick returns the state as it
    is, every field unchanged; so does any number of ticks, so a game that
    is over stays frozen under ticks. *)
Theorem moveSnake_frozen (random : nat -> Q) (st : GameState) :
  isPaused st = true \/ isGameOver st = true ->
  (forall fuel, moveSnake random fuel st = Done st) /\
  (forall fuels, tickMany random fuels st = Done st).
Proof.
  intros H.
  assert (Hidle : isPaused st || isGameOver st = true).
  { apply orb_true_iff. exact H. }
  assert (Hone : forall fuel, moveSnake random fuel st = Done st).
  { intros fuel. now apply moveSnake_idle. }
  split; [exact Hone|].
  induction fuels as [|fuel fuels IH]; simpl.
  - reflexivity.
  - rewrite Hone. simpl. exact IH.
Qed.

Lemma moveSnake_frozen_witness :
  (forall fuel, moveSnake stuck fuel pausedScenario = Done pausedScenario) /\
  (forall fuels, tickMany stuck fuels pausedScenario = Done pausedScenario).
Proof.
  apply (moveSnake_frozen stuck pausedScenario).
  left. reflexivity.
Defined.

(** ** The clock *)

Lemma Qgtb_lt (a b : Q) : Qgtb a b = true <-> (b < a)%Q.
Proof.
  unfold Qgtb. rewrite negb_true_iff. split.
  - intros H. apply Qnot_le_lt. intros Hle.
    apply Qle_bool_iff in Hle. congruence.
  - intros H. destruct (Qle_bool a b) eqn:E; [|reflexivity].
    apply Qle_bool_iff in E. exfalso. exact (Qlt_not_le _ _ H E).
Qed.

(** C5 (amended): on a frame callback with timestamp [time], if
    [time - lastUpdateTimeRef] is strictly greater than [speed] the loop
    calls the tick exactly once and sets [lastUpdateTimeRef] to [time];
    otherwise (equality included) it calls nothing and leaves the clock and
    the game as they are.  A callback never makes more than one tick,
    however many periods have elapsed. *)
Theorem loop_at_most_one_tick
  (random : nat -> Q) (fuel : nat) (time : Q) (clock : Clock) (st : GameState) :
  ((inject_Z (speed st) < time - lastUpdateTimeRef clock)%Q ->
   loop random fuel time (clock, st)
   = (let* st' := moveSnake random fuel st in
      Done (mkClock time (S (ticks clock)), st'))) /\
  (~ (inject_Z (speed st) < time - lastUpdateTimeRef clock)%Q ->
   loop random fuel time (clock, st) = Done (clock, st)) /\
  (forall clock' st',
     loop random fuel time (clock, st) = Done (clock', st') ->
     (ticks clock' = S (ticks clock) /\ lastUpdateTimeRef clock' = time /\
      moveSnake random fuel st = Done st' /\
      (inject_Z (speed st) < time - lastUpdateTimeRef clock)%Q)
     \/
     (clock' = clock /\ st' = st /\
      ~ (inject_Z (speed st) < time - lastUpdateTimeRef clock)%Q)).
Proof.
  unfold loop.
  destruct (Qgtb (time - lastUpdateTimeRef clock) (inject_Z (speed st))) eqn:E.
  - assert (Hlt : (inject_Z (speed st) < time - lastUpdateTimeRef clock)%Q)
      by now apply Qgtb_lt.
    split; [reflexivity|]. split; [intros Hn; contradiction|].
    intros clock' st' H. left.
    destruct (moveSnake random fuel st) as [st1| |]; simpl in H; try discriminate.
    injection H as <- <-. simpl. repeat split. exact Hlt.
  - assert (Hn : ~ (inject_Z (speed st) < time - lastUpdateTimeRef clock)%Q).
    { intros Hlt. apply Qgtb_lt in Hlt. congruence. }
    split; [intros Hlt; contradiction|]. split; [reflexivity|].
    intros clock' st' H. right. injection H as <- <-. repeat split. exact Hn.
Qed.

Lemma loop_at_most_one_tick_witness :
  loop sweep 1 151 (mkClock 0 0, scenario)
  = (let* st' := moveSnake sweep 1 scenario in Done (mkClock 151 1, st')) /\
  exists st', loop sweep 1 151 (mkClock 0 0, scenario) = Done (mkClock 151 1, st').
Proof.
  split.
  - apply (proj1 (loop_at_most_one_tick sweep 1 151 (mkClock 0 0) scenario)).
    reflexivity.
  - eexists. reflexivity.
Defined.

(** When exactly one period has elapsed the loop does not tick. *)
Lemma loop_at_most_one_tick_counterexample :
  (inject_Z (speed scenario) <= 150 - lastUpdateTimeRef (mkClock 0 0))%Q /\
  loop stuck 1 150 (mkClock 0 0, scenario) = Done (mkClock 0 0, scenario) /\
  (exists st', moveSnake stuck 1 scenario = Done st' /\ st' <> scenario).
Proof.
  split; [|split].
  - vm_compute. discriminate.
  - reflexivity.
  - eexists. split; [reflexivity|]. discriminate.
Qed.

(** ** Inputs *)

Lemma turn_vertical (st : GameState) (d : Point) :
  x d = 0 -> (y d = 1 \/ y d = -1) ->
  let st' := if y (direction st) =? 0 then setDirection d st else st in
  (direction st' = direction st \/
   (direction st' = d /\ perpendicular (direction st) d)) /\
  snake st' = snake st /\ score st' = score st /\ speed st' = speed st /\
  food st' = food st /\ isGameOver st' = isGameOver st /\
  isPaused st' = isPaused st.
Proof.
  intros Hx Hy. cbv zeta.
  destruct (y (direction st) =? 0) eqn:E; simpl.
  - apply Z.eqb_eq in E. split; [right|repeat split].
    split; [reflexivity|]. unfold perpendicular. rewrite Hx, E. lia.
  - split; [left; reflexivity | repeat split].
Qed.

Lemma turn_horizontal (st : GameState) (d : Point) :
  y d = 0 -> (x d = 1 \/ x d = -1) ->
  let st' := if x (direction st) =? 0 then setDirection d st else st in
  (direction st' = direction st \/
   (direction st' = d /\ perpendicular (direction st) d)) /\
  snake st' = snake st /\ score st' = score st /\ speed st' = speed st /\
  food st' = food st /\ isGameOver st' = isGameOver st /\
  isPaused st' = isPaused st.
Proof.
  intros Hy Hx. cbv zeta.
  destruct (x (direction st) =? 0) eqn:E; simpl.
  - apply Z.eqb_eq in E. split; [right|repeat split].
    split; [reflexivity|]. unfold perpendicular. rewrite Hy, E. lia.
  - split; [left; reflexivity | repeat split].
Qed.

(** An input leaves the direction alone or turns it by a right angle onto
    one of the four unit vectors; it never touches the snake, the score or
    the speed. *)
Lemma handleInput_turn (i : Input) (st : GameState) :
  (direction (handleInput i st) = direction st \/
   (isDirection (direction (handleInput i st)) /\
    perpendicular (direction st) (direction (handleInput i st)))) /\
  snake (handleInput i st) = snake st /\
  score (handleInput i st) = score st /\
  speed (handleInput i st) = speed st /\
  food (handleInput i st) = food st /\
  isGameOver (handleInput i st) = isGameOver st.
Proof.
  assert (V : forall d, x d = 0 -> (y d = 1 \/ y d = -1) -> isDirection d ->
    let st' := if y (direction st) =? 0 then setDirection d st else st in
    (direction st' = direction st \/
     (isDirection (direction st') /\ perpendicular (direction st) (direction st'))) /\
    snake st' = snake st /\ score st' = score st /\ speed st' = speed st /\
    food st' = food st /\ isGameOver st' = isGameOver st).
  { intros d Hx Hy Hd. pose proof (turn_vertical st d Hx Hy) as T. cbv zeta in *.
    destruct T as [[T|[T P]] R]; (split; [|tauto]).
    - left; exact T.
    - right. rewrite T. split; assumption. }
  assert (H : forall d, y d = 0 -> (x d = 1 \/ x d = -1) -> isDirection d ->
    let st' := if x (direction st) =? 0 then setDirection d st else st in
    (direction st' = direction st \/
     (isDirection (direction st') /\ perpendicular (direction st) (direction st'))) /\
    snake st' = snake st /\ score st' = score st /\ speed st' = speed st /\
    food st' = food st /\ isGameOver st' = isGameOver st).
  { intros d Hy Hx Hd. pose proof (turn_horizontal st d Hy Hx) as T. cbv zeta in *.
    destruct T as [[T|[T P]] R]; (split; [|tauto]).
    - left; exact T.
    - right. rewrite T. split; assumption. }
  cbv zeta in V, H. unfold isDirection in V, H.
  destruct i as [key|c]; simpl.
  - unfold handleKeyDown.
    destruct (key =? "ArrowUp")%string; [apply V; simpl; tauto|].
    destruct (key =? "ArrowDown")%string; [apply V; simpl; tauto|].
    destruct (key =? "ArrowLeft")%string; [apply H; simpl; tauto|].
    destruct (key =? "ArrowRight")%string; [apply H; simpl; tauto|].
    destruct (key =? " ")%string; [unfold setIsPaused; destruct (Bool.eqb _ _)|];
      simpl; (split; [left; reflexivity | repeat split]).
  - destruct c; simpl; first [apply V | apply H]; simpl; tauto.
Qed.

(** C2 (amended): every directional input, from the keyboard or from a
    button, is judged against the [direction] cell as it is when the input
    arrives (there is no separate pending direction: an accepted input is
    the direction from then on).  An input along the axis of that direction,
    the directly opposite one in particular, is never applied: one input
    leaves the direction alone or turns it by a right angle. *)
Theorem handleInput_no_reversal (i : Input) (st : GameState) :
  isDirection (direction st) ->
  direction (handleInput i st) <> opposite (direction st) /\
  isDirection (direction (handleInput i st)) /\
  (direction (handleInput i st) = direction st \/
   perpendicular (direction st) (direction (handleInput i st))).
Proof.
  intros Hd.
  destruct (handleInput_turn i st) as [[Same | [Hd' Perp]] _].
  - rewrite Same. split; [|split; [assumption | left; reflexivity]].
    unfold opposite. destruct Hd as [E|[E|[E|E]]]; rewrite E; simpl; discriminate.
  - split; [|split; [assumption | right; assumption]].
    intros Opp. unfold perpendicular in Perp. rewrite Opp in Perp.
    unfold opposite in Perp; simpl in Perp.
    destruct Hd as [E|[E|[E|E]]]; rewrite E in Perp; simpl in Perp; discriminate.
Qed.

Lemma handleInput_no_reversal_witness :
  direction (handleInput (KeyDown "ArrowDown") scenario) <> opposite (direction scenario) /\
  isDirection (direction (handleInput (KeyDown "ArrowDown") scenario)) /\
  (direction (handleInput (KeyDown "ArrowDown") scenario) = direction scenario \/
   perpendicular (direction scenario)
     (direction (handleInput (KeyDown "ArrowDown") scenario))).
Proof.
  apply (handleInput_no_reversal (KeyDown "ArrowDown") scenario).
  left. reflexivity.
Defined.

(** Two taps between two ticks, left then down, turn a snake that moved up
    at the last tick straight down: the next tick runs it into its neck. *)
Lemma handleInput_no_reversal_counterexample :
  direction scenario = mkPoint 0 (-1) /\
  direction (handleInputs [KeyDown "ArrowLeft"; KeyDown "ArrowDown"] scenario)
  = opposite (direction scenario) /\
  direction (handleInputs [Click ChevronLeft; Click ChevronDown] scenario)
  = opposite (direction scenario) /\
  exists st',
    moveSnake stuck 0
      (handleInputs [KeyDown "ArrowLeft"; KeyDown "ArrowDown"] scenario) = Done st' /\
    isGameOver st' = true.
Proof.
  do 3 (split; [reflexivity|]).
  eexists. split; reflexivity.
Qed.

(** ** Length, score and speed along executions *)

Section Along.

Variable random : nat -> Q.

(** A tick that returns either ate (one segment more, ten points more,
    speed lowered) or left length, score and speed alone. *)
Lemma moveSnake_cases (fuel : nat) (st st' : GameState) :
  moveSnake random fuel st = Done st' ->
  (eatsFood st = true /\
   List.length (snake st') = S (List.length (snake st)) /\
   score st' = score st + 10 /\ speed st' = Z.max 50 (speed st - 2))
  \/
  (eatsFood st = false /\
   List.length (snake st') = List.length (snake st) /\
   score st' = score st /\ speed st' = speed st).
Proof.
  intros Hstep. unfold eatsFood, running.
  destruct (isPaused st || isGameOver st) eqn:Hrun.
  - rewrite moveSnake_idle in Hstep by assumption.
    injection Hstep as <-. right. repeat split.
  - simpl. destruct (snake st) as [|head body] eqn:Hs.
    + unfold moveSnake in Hstep. rewrite Hrun, Hs in Hstep. discriminate.
    + rewrite <- Hs.
      destruct (hitsWall (nextHead head (direction st))) eqn:Hw.
      { rewrite (moveSnake_wall random fuel st head body) in Hstep by trivial.
        injection Hstep as <-. pose proof (endGame_fields st). right. simpl.
        intuition congruence. }
      destruct (isOnSnake (snake st) (nextHead head (direction st))) eqn:Hon.
      { rewrite (moveSnake_self random fuel st head body) in Hstep by trivial.
        injection Hstep as <-. pose proof (endGame_fields st). right. simpl.
        intuition congruence. }
      destruct (samePoint (nextHead head (direction st)) (food st)) eqn:Hf.
      * rewrite (moveSnake_eat random fuel st head body) in Hstep by trivial.
        cbv zeta in Hstep.
        destruct (generateFood random fuel (rng st) _) as [[newFood calls]| |];
          simpl in Hstep; try discriminate.
        injection Hstep as <-. left. simpl. repeat split.
      * rewrite (moveSnake_step random fuel st head body) in Hstep by trivial.
        assert (E : st' = setSnake (removelast (nextHead head (direction st) :: snake st)) st)
          by congruence.
        subst st'. right. unfold setSnake; cbn [snake score speed].
        rewrite removelast_cons_length. repeat split.
Qed.

Lemma resetGame_fields (fuel : nat) (st0 st : GameState) :
  resetGame random fuel st0 = Done st ->
  snake st = INITIAL_SNAKE /\ score st = 0 /\ speed st = BASE_SPEED /\
  direction st = INITIAL_DIRECTION /\ isGameOver st = false /\
  isPaused st = false /\ ~ In (food st) INITIAL_SNAKE.
Proof.
  unfold resetGame.
  destruct st0 as [u s f d [|] [|] sc sp r sv su ss]; simpl;
  destruct (generateFood random fuel r INITIAL_SNAKE)
    as [[newFood calls]| |] eqn:G; simpl; try discriminate;
  intros H; injection H as <-; simpl;
  apply generateFood_sound in G as [j [_ [_ [_ Hfree]]]];
  apply isOnSnake_not_In in Hfree; (repeat (split; [reflexivity|])); exact Hfree.
Qed.

(** The invariant that ties score and speed to the length of the snake. *)
Lemma Reachable_invariant (st : GameState) :
  Reachable random st ->
  (3 <= List.length (snake st))%nat /\
  score st = 10 * (Z.of_nat (List.length (snake st)) - 3) /\
  speed st = Z.max 50 (150 - 2 * (Z.of_nat (List.length (snake st)) - 3)).
Proof.
  induction 1 as [st0 fuel st Hreset | st fuel st' _ IH Hstep | st i _ IH].
  - apply resetGame_fields in Hreset as [-> [-> [-> _]]].
    simpl. unfold BASE_SPEED. repeat split; lia.
  - destruct IH as [Hlen [Hscore Hspeed]].
    destruct (moveSnake_cases fuel st st' Hstep)
      as [[_ [Hl [Hsc Hsp]]] | [_ [Hl [Hsc Hsp]]]];
      rewrite Hl, Hsc, Hsp; repeat split; lia.
  - destruct (handleInput_turn i st) as [_ [-> [-> [-> _]]]]. exact IH.
Qed.

(** A logout leaves the game running with nobody logged in. *)
Lemma logout_runs (fuel : nat) (st st' : GameState) :
  logout random fuel st = Done st' ->
  currentUser st' = None /\ seenUser st' = None /\
  isPaused st' = false /\ isGameOver st' = false.
Proof.
  unfold logout, resetGame.
  destruct st as [u s f d [|] [|] sc sp r sv su ss]; simpl;
    destruct (generateFood random fuel r INITIAL_SNAKE) as [[newFood calls]| |];
    simpl; try discriminate;
    intros H; injection H as <-; repeat split.
Qed.

(** Resets, ticks and inputs leave the tick up to date: only a login can
    outrun it. *)
Lemma Reachable_upToDate (st : GameState) :
  Reachable random st -> upToDate st.
Proof.
  unfold upToDate.
  induction 1 as [st0 fuel st Hreset | st fuel st' _ IH Hstep | st i _ IH].
  - unfold resetGame in Hreset.
    destruct st0 as [u s f d [|] [|] sc sp r sv su ss]; simpl in Hreset;
      destruct (generateFood random fuel r INITIAL_SNAKE) as [[newFood calls]| |];
      simpl in Hreset; try discriminate;
      injection Hreset as <-; split; reflexivity.
  - unfold moveSnake in Hstep.
    destruct st as [u s f d g p sc sp r sv su ss]; simpl in *.
    destruct IH as [-> ->].
    destruct p, g; simpl in Hstep; try (injection Hstep as <-; split; reflexivity).
    destruct s as [|head body]; [discriminate|].
    destruct (hitsWall _);
      [destruct u; injection Hstep as <-; split; reflexivity|].
    destruct (isOnSnake _ _);
      [destruct u; injection Hstep as <-; split; reflexivity|].
    destruct (samePoint _ _).
    + destruct (generateFood random fuel r _) as [[newFood calls]| |];
        simpl in Hstep; try discriminate.
      injection Hstep as <-. split; reflexivity.
    + injection Hstep as <-. split; reflexivity.
  - destruct st as [u s f d g p sc sp r sv su ss]; simpl in *.
    destruct IH as [-> ->].
    destruct i as [key|c]; simpl.
    + unfold handleKeyDown, setIsPaused; simpl.
      repeat match goal with
             | |- context [if ?b then _ else _] => destruct b; simpl
             end; split; reflexivity.
    + destruct c; simpl;
        repeat match goal with
               | |- context [if ?b then _ else _] => destruct b; simpl
               end; split; reflexivity.
Qed.

End Along.

(** ** The scripted games *)

(** A script run from a reachable state ends in a reachable state. *)
Lemma run_Reachable (random : nat -> Q) (events : list Event) (st st' : GameState) :
  Reachable random st ->
  run random events st = Done st' ->
  Reachable random st'.
Proof.
  revert st. induction events as [|[fuel|i] events IH]; intros st Hst Hrun; simpl in Hrun.
  - injection Hrun as <-. exact Hst.
  - destruct (moveSnake random fuel st) as [st1| |] eqn:Hstep;
      simpl in Hrun; try discriminate.
    apply (IH st1); [|exact Hrun]. exact (reach_tick random st fuel st1 Hst Hstep).
  - apply (IH (handleInput i st)); [|exact Hrun]. now apply reach_input.
Qed.

Lemma along_unit : unitInterval along.
Proof.
  intros n. unfold along. cbv zeta.
  set (k := Z.to_nat _).
  pose proof (Nat.mod_upper_bound k 20 ltac:(lia)) as Hk.
  unfold Qle, Qlt; cbn [Qnum Qden]. lia.
Qed.

Lemma longStart_done : resetGame along 1 scenario = Done longStart.
Proof. vm_compute. reflexivity. Qed.

Lemma nearlyFull_done : run along longScript longStart = Done nearlyFull.
Proof. vm_compute. reflexivity. Qed.

Lemma nearlyFull_reachable : Reachable along nearlyFull.
Proof.
  exact (run_Reachable along longScript longStart nearlyFull
           (reach_reset along scenario 1 longStart longStart_done)
           nearlyFull_done).
Qed.

(** The long game ends one bite before the grid is full. *)
Lemma nearlyFull_shape :
  List.length (snake nearlyFull) = 399%nat /\
  score nearlyFull = 3960 /\ speed nearlyFull = 50 /\
  hd_error (snake nearlyFull) = Some (mkPoint 8 0) /\
  food nearlyFull = mkPoint 9 0 /\ direction nearlyFull = mkPoint 1 0 /\
  isGameOver nearlyFull = false /\ isPaused nearlyFull = false.
Proof. vm_compute. repeat split. Qed.

Lemma shortStart_done : resetGame sweep 1 (setRng 380 scenario) = Done shortStart.
Proof. vm_compute. reflexivity. Qed.

Lemma secondBite_done : run sweep shortScript shortStart = Done secondBite.
Proof. vm_compute. reflexivity. Qed.

Lemma secondBite_reachable : Reachable sweep secondBite.
Proof.
  exact (run_Reachable sweep shortScript shortStart secondBite
           (reach_reset sweep (setRng 380 scenario) 1 shortStart shortStart_done)
           secondBite_done).
Qed.

(** The short game ends with one bite taken and the next food right in
    front of the head. *)
Lemma secondBite_shape :
  snake secondBite = [ mkPoint 10 9; mkPoint 10 10; mkPoint 10 11; mkPoint 10 12 ] /\
  score secondBite = 10 /\ food secondBite = mkPoint 11 9 /\
  direction secondBite = mkPoint 1 0 /\ rng secondBite = 384%nat /\
  eatsFood secondBite = true.
Proof. vm_compute. repeat split. Qed.

Lemma sweep_fair_secondBite : fairFrom sweep (rng secondBite).
Proof.
  replace (rng secondBite) with 384%nat by (vm_compute; reflexivity).
  intros c Hc.
  assert (H : forallb (fun k => samePoint
                                  (proposal sweep (384 + 2 * Nat.modulo (k + 208) 400))
                                  (nth k allCells (mkPoint 0 0)))
                      (seq 0 400) = true)
    by (vm_compute; reflexivity).
  rewrite forallb_forall in H.
  destruct (In_nth allCells c (mkPoint 0 0) Hc) as [k [Hk Hnth]].
  rewrite allCells_length in Hk.
  exists (Nat.modulo (k + 208) 400). rewrite <- Hnth.
  apply samePoint_eq, H, in_seq. lia.
Qed.

(** C6: along an execution of [N] ticks of which exactly [F] consume food
    and none collides, the snake ends [F] segments longer than it began; a
    tick that neither collides nor eats puts the new head in front and
    removes the last element, so the length stays as it was. *)
Theorem snake_length_after_ticks (random : nat -> Q) :
  (forall st N F st',
     Execution random st N F st' ->
     List.length (snake st') = (List.length (snake st) + F)%nat) /\
  (forall fuel st head body,
     isPaused st = false -> isGameOver st = false ->
     snake st = head :: body ->
     hitsWall (nextHead head (direction st)) = false ->
     ~ In (nextHead head (direction st)) (snake st) ->
     nextHead head (direction st) <> food st ->
     exists st',
       moveSnake random fuel st = Done st' /\
       snake st' = removelast (nextHead head (direction st) :: snake st) /\
       snake st' = nextHead head (direction st) :: removelast (snake st) /\
       List.length (snake st') = List.length (snake st)).
Proof.
  split.
  - induction 1 as [st | st i N F st' _ IH | st fuel st1 N F st' _ Hstep _ IH].
    + lia.
    + rewrite IH. destruct (handleInput_turn i st) as [_ [-> _]]. reflexivity.
    + rewrite IH.
      destruct (moveSnake_cases random fuel st st1 Hstep)
        as [[-> [Hl _]] | [-> [Hl _]]]; rewrite Hl; lia.
  - intros fuel st head body Hp Hg Hs Hw Hself Hfood.
    eexists. split.
    + apply (moveSnake_step random fuel st head body); trivial.
      * now apply running_flags.
      * now apply isOnSnake_not_In.
      * destruct (samePoint _ _) eqn:E; [|reflexivity].
        apply samePoint_eq in E. contradiction.
    + simpl snake. split; [reflexivity|]. split.
      * rewrite Hs. reflexivity.
      * apply removelast_cons_length.
Qed.

Lemma snake_length_after_ticks_witness :
  exists st',
    Execution sweep scenario 2 1 st' /\
    List.length (snake st') = (List.length (snake scenario) + 1)%nat.
Proof.
  assert (E : { st' | Execution sweep scenario 2 1 st' }).
  { eexists.
    eapply (exec_tick sweep scenario 1 _ 1 0 _ eq_refl eq_refl).
    eapply exec_input with (i := KeyDown "ArrowLeft").
    refine (exec_tick sweep _ 1 _ 0 0 _ _ _ _);
      [reflexivity | reflexivity | apply exec_stop]. }
  destruct E as [st' E]. exists st'. split; [exact E|].
  exact (proj1 (snake_length_after_ticks sweep) scenario 2%nat 1%nat st' E).
Defined.

(** C10: in every state reachable from [resetGame] by ticks (and inputs),
    the score is ten times the number of segments beyond the initial three
    and the speed is [max 50 (150 - 2 * (length - 3))]; so the score is a
    non-negative multiple of 10 and the speed lies between 50 and 150. *)
Theorem reachable_score_speed (random : nat -> Q) (st : GameState) :
  Reachable random st ->
  score st = 10 * (Z.of_nat (List.length (snake st)) - 3) /\
  speed st = Z.max 50 (150 - 2 * (Z.of_nat (List.length (snake st)) - 3)) /\
  0 <= score st /\ (10 | score st) /\
  50 <= speed st <= 150.
Proof.
  intros H. destruct (Reachable_invariant random st H) as [Hlen [Hscore Hspeed]].
  split; [exact Hscore|]. split; [exact Hspeed|].
  split; [lia|]. split; [|lia].
  exists (Z.of_nat (List.length (snake st)) - 3). lia.
Qed.

Lemma reachable_score_speed_witness :
  (List.length (snake nearlyFull) = 399%nat /\
   score nearlyFull = 3960 /\ speed nearlyFull = 50) /\
  score nearlyFull = 10 * (Z.of_nat (List.length (snake nearlyFull)) - 3) /\
  speed nearlyFull
  = Z.max 50 (150 - 2 * (Z.of_nat (List.length (snake nearlyFull)) - 3)) /\
  0 <= score nearlyFull /\ (10 | score nearlyFull) /\
  50 <= speed nearlyFull <= 150.
Proof.
  split; [destruct nearlyFull_shape as [Hl [Hs [Hv _]]]; exact (conj Hl (conj Hs Hv))|].
  apply (reachable_score_speed along nearlyFull).
  exact nearlyFull_reachable.
Defined.

(** ** Login *)

Module StorageFacts.

Import Storage.

#[local] Open Scope string_scope.

(** What [loginUser] answers, response by response. *)
Lemma loginUser_on_cases (response : Awaited) (user secret : string) :
  (success (loginUser_on response user secret) = true <->
   exists row, response = Resolved (Some row) None /\ password row = secret) /\
  (success (loginUser_on response user secret) = true ->
   loginUser_on response user secret
   = mkLoginResult true (Some (mkUserToken user)) None) /\
  (forall data e, response = Resolved data (Some e) ->
   loginUser_on response user secret
   = mkLoginResult false None (Some "User not found")) /\
  (forall e, response = Resolved None e ->
   loginUser_on response user secret
   = mkLoginResult false None (Some "User not found")) /\
  (forall row, response = Resolved (Some row) None -> password row <> secret ->
   loginUser_on response user secret
   = mkLoginResult false None (Some "Incorrect password")) /\
  (forall m, response = Rejected m ->
   loginUser_on response user secret = mkLoginResult false None (Some m)).
Proof.
  destruct response as [[row|] [e|] | m]; simpl.
  - repeat split; try discriminate; try reflexivity.
    intros [row' [E _]]; discriminate.
  - destruct (String.eqb_spec (password row) secret) as [E|Hne]; simpl.
    + repeat split; try discriminate; try reflexivity.
      * exists row. split; [reflexivity | exact E].
      * intros row' Hrow Hne. congruence.
    + repeat split; try discriminate; try reflexivity.
      intros [row' [Hrow E]]. congruence.
  - repeat split; try discriminate; try reflexivity.
    intros [row' [E _]]; discriminate.
  - repeat split; try discriminate; try reflexivity.
    intros [row' [E _]]; discriminate.
  - repeat split; try discriminate; try reflexivity.
    + intros [row' [E _]]; discriminate.
    + intros m' E. congruence.
Qed.

(** C9 (amended): [loginUser] succeeds, with the username as its token,
    exactly when the store answers without error with the row of that
    username and the stored secret equals the supplied one.  It answers
    "User not found" when the store has no such row and also whenever the
    store answers with an error object, whatever the failure; it answers
    "Incorrect password" when the row is there with another secret; only a
    request that raises is reported with its own message.  The first part
    reads this off the response of the store client, the second off a store
    that holds the rows. *)
Theorem loginUser_outcomes (user secret : string) :
  (forall response : Awaited,
     (success (loginUser_on response user secret) = true <->
      exists row, response = Resolved (Some row) None /\ password row = secret) /\
     (success (loginUser_on response user secret) = true ->
      loginUser_on response user secret
      = mkLoginResult true (Some (mkUserToken user)) None) /\
     (forall data e, response = Resolved data (Some e) ->
      loginUser_on response user secret
      = mkLoginResult false None (Some "User not found")) /\
     (forall e, response = Resolved None e ->
      loginUser_on response user secret
      = mkLoginResult false None (Some "User not found")) /\
     (forall row, response = Resolved (Some row) None -> password row <> secret ->
      loginUser_on response user secret
      = mkLoginResult false None (Some "Incorrect password")) /\
     (forall m, response = Rejected m ->
      loginUser_on response user secret = mkLoginResult false None (Some m))) /\
  (forall store : AccountStore,
     (success (loginUser store user secret) = true <->
      health store = Healthy /\ exists u, rowsOf store user = [(u, secret)]) /\
     (success (loginUser store user secret) = true ->
      loginUser store user secret
      = mkLoginResult true (Some (mkUserToken user)) None) /\
     (health store = Healthy -> rowsOf store user = [] ->
      loginUser store user secret
      = mkLoginResult false None (Some "User not found")) /\
     (forall e, health store = Failing e ->
      loginUser store user secret
      = mkLoginResult false None (Some "User not found")) /\
     (forall u stored, health store = Healthy -> rowsOf store user = [(u, stored)] ->
      stored <> secret ->
      loginUser store user secret
      = mkLoginResult false None (Some "Incorrect password")) /\
     (forall m, health store = Raising m ->
      loginUser store user secret = mkLoginResult false None (Some m))).
Proof.
  split; [intros response; apply loginUser_on_cases|].
  intros store. unfold loginUser, selectSingle.
  destruct (health store) as [|e|m] eqn:Hh.
  - destruct (rowsOf store user) as [|[u stored] [|r rows]] eqn:Hrows; simpl.
    + repeat split; try discriminate; try reflexivity.
      intros [_ [u Hu]]; discriminate.
    + destruct (String.eqb_spec stored secret) as [->|Hne]; simpl.
      * repeat split; try discriminate; try reflexivity.
        -- exists u; reflexivity.
        -- intros u' stored' _ E Hne. congruence.
      * repeat split; try discriminate; try reflexivity.
        intros [_ [u' Hu]]. congruence.
    + repeat split; try discriminate; try reflexivity.
      intros [_ [u' Hu]]; discriminate.
  - simpl. repeat split; try discriminate; try reflexivity.
    intros [Hbad _]; discriminate.
  - simpl. repeat split; try discriminate; try reflexivity.
    + intros [Hbad _]; discriminate.
    + intros m' E. congruence.
Qed.

Lemma loginUser_outcomes_witness :
  loginUser (mkAccountStore [("ada", "pw")] Healthy) "ada" "pw"
  = mkLoginResult true (Some (mkUserToken "ada")) None /\
  loginUser (mkAccountStore [("ada", "pw")] Healthy) "ada" "pq"
  = mkLoginResult false None (Some "Incorrect password").
Proof.
  pose proof (proj2 (loginUser_outcomes "ada" "pw")
                (mkAccountStore [("ada", "pw")] Healthy))
    as [_ [Hok _]].
  pose proof (proj2 (loginUser_outcomes "ada" "pq")
                (mkAccountStore [("ada", "pw")] Healthy))
    as [_ [_ [_ [_ [Hbad _]]]]].
  split.
  - apply Hok. reflexivity.
  - apply (Hbad "ada" "pw"); try reflexivity. discriminate.
Defined.

(** A store that answers with an error object (here a network failure)
    holds the user with the right secret, and [loginUser] answers exactly
    what it answers for a healthy store without that user. *)
Lemma loginUser_outcomes_counterexample :
  loginUser (mkAccountStore [("ada", "pw")]
               (Failing (mkPostgrestError "" "TypeError: Failed to fetch")))
            "ada" "pw"
  = mkLoginResult false None (Some "User not found") /\
  loginUser (mkAccountStore [] Healthy) "ada" "pw"
  = mkLoginResult false None (Some "User not found") /\
  loginUser_on (Resolved None
                  (Some (mkPostgrestError "" "TypeError: Failed to fetch")))
               "ada" "pw"
  = loginUser_on (Resolved None
                    (Some (mkPostgrestError "PGRST116"
                             "Cannot coerce the result to a single JSON object")))
                 "ada" "pw".
Proof. repeat split. Qed.

End StorageFacts.

(** ** The shape of the snake *)

Lemma removelast_prefix (p : Point) (s : list Point) :
  exists t, p :: s = removelast (p :: s) ++ [t].
Proof.
  exists (last (p :: s) p). apply app_removelast_last. discriminate.
Qed.

Lemma connected_app_l (s t : list Point) :
  connected (s ++ t) -> connected s.
Proof.
  induction s as [|p [|q s] IH]; simpl; intros H; try exact I.
  destruct H as [Hpq Hrest]. split; [exact Hpq|]. apply IH. exact Hrest.
Qed.

Lemma adjacent_nextHead (head d : Point) :
  isDirection d -> adjacent (nextHead head d) head.
Proof.
  unfold adjacent, nextHead. intros [E|[E|[E|E]]]; rewrite E; simpl; lia.
Qed.

Lemma inGrid_allCells (p : Point) : inGrid p <-> In p allCells.
Proof. unfold inGrid. symmetry. apply allCells_spec. Qed.

Section Shape.

Variable random : nat -> Q.

(** What a tick that returns has done to the snake, the food and the
    direction. *)
Lemma moveSnake_inv (fuel : nat) (st st' : GameState) :
  moveSnake random fuel st = Done st' ->
  direction st' = direction st /\
  ((snake st' = snake st /\ food st' = food st /\
    (isPaused st || isGameOver st = true \/ isGameOver st' = true))
   \/
   exists head body,
     snake st = head :: body /\
     isGameOver st = false /\ isPaused st = false /\
     hitsWall (nextHead head (direction st)) = false /\
     ~ In (nextHead head (direction st)) (snake st) /\
     ((snake st' = nextHead head (direction st) :: snake st /\
       nextHead head (direction st) = food st /\
       ~ In (food st') (snake st') /\
       exists n, food st' = proposal random n)
      \/
      (snake st' = removelast (nextHead head (direction st) :: snake st) /\
       nextHead head (direction st) <> food st /\
       food st' = food st))).
Proof.
  intros Hstep.
  destruct (isPaused st || isGameOver st) eqn:Hrun.
  - rewrite moveSnake_idle in Hstep by assumption.
    injection Hstep as <-.
    split; [reflexivity | left; repeat split; left; reflexivity].
  - destruct (snake st) as [|head body] eqn:Hs.
    + unfold moveSnake in Hstep. rewrite Hrun, Hs in Hstep. discriminate.
    + rewrite <- Hs.
      destruct (hitsWall (nextHead head (direction st))) eqn:Hw.
      { rewrite (moveSnake_wall random fuel st head body) in Hstep by trivial.
        injection Hstep as <-. pose proof (endGame_fields st).
        split; [tauto | left; tauto]. }
      destruct (isOnSnake (snake st) (nextHead head (direction st))) eqn:Hon.
      { rewrite (moveSnake_self random fuel st head body) in Hstep by trivial.
        injection Hstep as <-. pose proof (endGame_fields st).
        split; [tauto | left; tauto]. }
      apply orb_false_iff in Hrun as Hflags. destruct Hflags as [Hp Hg].
      apply isOnSnake_not_In in Hon as Hnot.
      destruct (samePoint (nextHead head (direction st)) (food st)) eqn:Hf.
      * rewrite (moveSnake_eat random fuel st head body) in Hstep by trivial.
        cbv zeta in Hstep.
        destruct (generateFood random fuel (rng st) _) as [[newFood calls]| |] eqn:G;
          simpl in Hstep; try discriminate.
        injection Hstep as <-. simpl.
        apply generateFood_sound in G as [j [_ [Hj [_ Hfree]]]].
        apply isOnSnake_not_In in Hfree. apply samePoint_eq in Hf.
        split; [reflexivity|]. right. exists head, body.
        repeat (split; [assumption|]). left.
        split; [reflexivity|]. split; [exact Hf|]. split; [exact Hfree|].
        exists (rng st + 2 * j)%nat. exact Hj.
      * rewrite (moveSnake_step random fuel st head body) in Hstep by trivial.
        assert (E : st' = setSnake (removelast (nextHead head (direction st) :: snake st)) st)
          by congruence.
        subst st'. unfold setSnake; cbn [snake food direction].
        split; [reflexivity|]. right. exists head, body.
        repeat (split; [assumption|]). right.
        split; [reflexivity|]. split; [|reflexivity].
        intros E. apply samePoint_eq in E. congruence.
Qed.

(** The invariant of the board: the snake is a path of distinct cells of
    the grid, the food lies off it, and the direction is a unit vector. *)
Lemma Reachable_board (st : GameState) :
  Reachable random st ->
  NoDup (snake st) /\ Forall inGrid (snake st) /\ connected (snake st) /\
  isDirection (direction st) /\ ~ In (food st) (snake st) /\
  (unitInterval random -> inGrid (food st)).
Proof.
  induction 1 as [st0 fuel st Hreset | st fuel st' _ IH Hstep | st i _ IH].
  - unfold resetGame in Hreset.
    destruct st0 as [u s f d [|] [|] sc sp r sv su ss]; simpl in Hreset;
      destruct (generateFood random fuel r INITIAL_SNAKE)
        as [[newFood calls]| |] eqn:G;
      simpl in Hreset; try discriminate;
      injection Hreset as <-; simpl;
      apply generateFood_sound in G as [j [_ [Hj [_ Hfree]]]];
      apply isOnSnake_not_In in Hfree;
      (split; [repeat constructor; simpl; intuition discriminate|]);
      (split; [repeat constructor; unfold GRID_SIZE; simpl; lia|]);
      (split; [simpl; unfold adjacent; simpl; lia|]);
      (split; [left; reflexivity|]);
      (split; [exact Hfree|]);
      intros Hunit; rewrite Hj; apply inGrid_allCells, proposal_in_grid; exact Hunit.
  - destruct IH as [Hnd [Hgrid [Hconn [Hdir [Hfood Hfg]]]]].
    destruct (moveSnake_inv fuel st st' Hstep) as [Hd Hcases].
    rewrite Hd.
    destruct Hcases as [[Hs [Hf _]] | [head [body [Hs [_ [_ [Hw [Hnot Hcases]]]]]]]].
    + rewrite Hs, Hf. tauto.
    + assert (Hnd' : NoDup (nextHead head (direction st) :: snake st))
        by (constructor; assumption).
      assert (Hgrid' : Forall inGrid (nextHead head (direction st) :: snake st)).
      { constructor; [|assumption]. apply hitsWall_false in Hw. exact Hw. }
      assert (Hconn' : connected (nextHead head (direction st) :: snake st)).
      { rewrite Hs. simpl. split; [now apply adjacent_nextHead|].
        rewrite Hs in Hconn. exact Hconn. }
      destruct Hcases as [[Hs' [Heat [Hfree [n Hn]]]] | [Hs' [Hne Hf]]].
      * rewrite Hs'. rewrite Hs' in Hfree.
        repeat (split; [assumption|]).
        intros Hunit. rewrite Hn. apply inGrid_allCells, proposal_in_grid. exact Hunit.
      * rewrite Hs', Hf.
        destruct (removelast_prefix (nextHead head (direction st)) (snake st))
          as [t Ht].
        rewrite Ht in Hnd', Hgrid', Hconn'.
        split; [eapply NoDup_app_remove_r; exact Hnd'|].
        split; [apply Forall_app in Hgrid'; tauto|].
        split; [eapply connected_app_l; exact Hconn'|].
        split; [assumption|]. split; [|assumption].
        intros Hin.
        assert (Hin' : In (food st) (nextHead head (direction st) :: snake st)).
        { rewrite Ht. apply in_or_app. left. exact Hin. }
        destruct Hin' as [E|Hin']; [congruence | contradiction].
  - destruct IH as [Hnd [Hgrid [Hconn [Hdir [Hfood Hfg]]]]].
    destruct (handleInput_turn i st) as [Hturn [-> [_ [_ [-> _]]]]].
    repeat (split; [assumption|]).
    split; [|split; assumption].
    destruct Hturn as [-> | [Hd _]]; assumption.
Qed.

End Shape.

Lemma allCells_NoDup : NoDup allCells.
Proof.
  apply (NoDup_map_inv (fun p => Z.to_nat (x p + 20 * y p))).
  replace (map (fun p => Z.to_nat (x p + 20 * y p)) allCells) with (seq 0 400)
    by (vm_compute; reflexivity).
  apply seq_NoDup.
Qed.

(** A snake occupies no more cells than it has segments. *)
Lemma occupied_le_length (s : list Point) : (occupied s <= List.length s)%nat.
Proof.
  unfold occupied. apply NoDup_incl_length.
  - apply NoDup_filter, allCells_NoDup.
  - intros c Hc. apply filter_In in Hc as [_ Hc]. now apply isOnSnake_In.
Qed.

Lemma generateFood_returns_or_runs (random : nat -> Q) (fuel calls : nat) (s : list Point) :
  generateFood random fuel calls s <> TypeError.
Proof.
  revert calls. induction fuel as [|fuel IH]; intros calls; simpl.
  - discriminate.
  - destruct (negb (isOnSnake s (proposal random calls))); [discriminate | apply IH].
Qed.

(** X1: in every state reached from a reset by ticks and inputs, the
    segments of the snake are pairwise distinct cells, all inside the
    grid. *)
Theorem snake_distinct_cells_of_grid (random : nat -> Q) (st : GameState) :
  Reachable random st ->
  NoDup (snake st) /\
  (forall p, In p (snake st) -> 0 <= x p < 20 /\ 0 <= y p < 20).
Proof.
  intros H. destruct (Reachable_board random st H) as [Hnd [Hgrid _]].
  split; [exact Hnd|]. intros p Hp.
  rewrite Forall_forall in Hgrid. exact (Hgrid p Hp).
Qed.

Lemma snake_distinct_cells_of_grid_witness :
  List.length (snake nearlyFull) = 399%nat /\
  NoDup (snake nearlyFull) /\
  (forall p, In p (snake nearlyFull) -> 0 <= x p < 20 /\ 0 <= y p < 20).
Proof.
  split; [exact (proj1 nearlyFull_shape)|].
  apply (snake_distinct_cells_of_grid along nearlyFull).
  exact nearlyFull_reachable.
Defined.

(** X2: in every reachable state the snake is a path: each segment shares
    a side with the next one; and the direction is one of the four unit
    vectors. *)
Theorem snake_connected_path (random : nat -> Q) (st : GameState) :
  Reachable random st ->
  connected (snake st) /\ isDirection (direction st).
Proof.
  intros H. pose proof (Reachable_board random st H). tauto.
Qed.

Lemma snake_connected_path_witness :
  List.length (snake nearlyFull) = 399%nat /\
  connected (snake nearlyFull) /\ isDirection (direction nearlyFull).
Proof.
  split; [exact (proj1 nearlyFull_shape)|].
  apply (snake_connected_path along nearlyFull).
  exact nearlyFull_reachable.
Defined.

(** X3: in every reachable state the food lies on a cell of the grid that
    no segment of the snake occupies (for a random source in the unit
    interval). *)
Theorem food_on_free_cell (random : nat -> Q) (st : GameState) :
  unitInterval random ->
  Reachable random st ->
  (0 <= x (food st) < 20 /\ 0 <= y (food st) < 20) /\
  ~ In (food st) (snake st) /\
  isOnSnake (snake st) (food st) = false.
Proof.
  intros Hunit H.
  destruct (Reachable_board random st H) as [_ [_ [_ [_ [Hfree Hgrid]]]]].
  split; [exact (Hgrid Hunit)|]. split; [exact Hfree|].
  now apply isOnSnake_not_In.
Qed.

Lemma food_on_free_cell_witness :
  (List.length (snake nearlyFull) = 399%nat /\ food nearlyFull = mkPoint 9 0) /\
  (0 <= x (food nearlyFull) < 20 /\ 0 <= y (food nearlyFull) < 20) /\
  ~ In (food nearlyFull) (snake nearlyFull) /\
  isOnSnake (snake nearlyFull) (food nearlyFull) = false.
Proof.
  split; [destruct nearlyFull_shape as [Hl [_ [_ [_ [Hf _]]]]]; exact (conj Hl Hf)|].
  apply (food_on_free_cell along nearlyFull along_unit).
  exact nearlyFull_reachable.
Defined.

(** X4: no reachable state has a snake of more than 399 segments, so the
    score never exceeds 3960: the board is never seen full. *)
Theorem snake_never_fills_board (random : nat -> Q) (st : GameState) :
  unitInterval random ->
  Reachable random st ->
  (List.length (snake st) <= 399)%nat /\ score st <= 3960.
Proof.
  intros Hunit H.
  destruct (Reachable_board random st H) as [Hnd [Hgrid [_ [_ [Hfree Hfood]]]]].
  assert (Hlen : (List.length (food st :: snake st) <= List.length allCells)%nat).
  { apply NoDup_incl_length.
    - constructor; assumption.
    - intros c [<-|Hc].
      + apply inGrid_allCells. exact (Hfood Hunit).
      + apply inGrid_allCells. rewrite Forall_forall in Hgrid. exact (Hgrid c Hc). }
  rewrite allCells_length in Hlen. simpl in Hlen.
  destruct (Reachable_invariant random st H) as [_ [Hscore _]].
  split; [lia|]. rewrite Hscore. lia.
Qed.

Lemma snake_never_fills_board_witness :
  (List.length (snake nearlyFull) = 399%nat /\ score nearlyFull = 3960) /\
  (List.length (snake nearlyFull) <= 399)%nat /\ score nearlyFull <= 3960.
Proof.
  split; [destruct nearlyFull_shape as [Hl [Hs _]]; exact (conj Hl Hs)|].
  apply (snake_never_fills_board along nearlyFull along_unit).
  exact nearlyFull_reachable.
Defined.

(** X5: in a reachable state the tick never raises: the snake it reads
    the head of is never empty. *)
Theorem moveSnake_never_raises (random : nat -> Q) (fuel : nat) (st : GameState) :
  Reachable random st ->
  snake st <> [] /\ moveSnake random fuel st <> TypeError.
Proof.
  intros H. destruct (Reachable_invariant random st H) as [Hlen _].
  destruct (snake st) as [|head body] eqn:Hs; [simpl in Hlen; lia|].
  split; [discriminate|].
  unfold moveSnake. rewrite Hs.
  destruct (isPaused st || isGameOver st); [discriminate|]. cbv zeta.
  destruct (hitsWall _); [discriminate|].
  destruct (isOnSnake _ _); [discriminate|].
  destruct (samePoint _ _); [|discriminate].
  pose proof (generateFood_returns_or_runs random fuel
                (rng (setSpeed (fun prev => Z.max 50 (prev - SPEED_INCREMENT))
                        (setScore (fun s => s + 10) st)))
                (nextHead head (direction st) :: head :: body)) as G.
  destruct (generateFood random fuel _ _) as [[newFood calls]| |];
    simpl; [discriminate | contradiction | discriminate].
Qed.

Lemma moveSnake_never_raises_witness :
  (snake nearlyFull <> [] /\ moveSnake along 5 nearlyFull <> TypeError) /\
  (snake secondBite <> [] /\ moveSnake sweep 1 secondBite <> TypeError).
Proof.
  split.
  - apply (moveSnake_never_raises along 5 nearlyFull). exact nearlyFull_reachable.
  - apply (moveSnake_never_raises sweep 1 secondBite). exact secondBite_reachable.
Defined.

(** X6: in a reachable state whose snake has fewer than 399 segments the
    tick returns, on every fuel beyond the rounds its food loop needs (for a
    random source in the unit interval that proposes every cell at some
    point). *)
Theorem moveSnake_returns (random : nat -> Q) (st : GameState) :
  unitInterval random ->
  fairFrom random (rng st) ->
  Reachable random st ->
  (List.length (snake st) < 399)%nat ->
  exists rounds, forall fuel, (rounds < fuel)%nat ->
    exists st', moveSnake random fuel st = Done st'.
Proof.
  intros Hunit Hfair H Hlen.
  destruct (Reachable_invariant random st H) as [Hlen3 _].
  destruct (snake st) as [|head body] eqn:Hs; [simpl in Hlen3; lia|].
  destruct (isPaused st || isGameOver st) eqn:Hrun.
  { exists 0%nat. intros fuel _. exists st. now apply moveSnake_idle. }
  destruct (hitsWall (nextHead head (direction st))) eqn:Hw.
  { exists 0%nat. intros fuel _. exists (endGame st).
    now apply (moveSnake_wall random fuel st head body). }
  destruct (isOnSnake (snake st) (nextHead head (direction st))) eqn:Hon.
  { exists 0%nat. intros fuel _. exists (endGame st).
    now apply (moveSnake_self random fuel st head body). }
  destruct (samePoint (nextHead head (direction st)) (food st)) eqn:Hf.
  - destruct (food_loop_returns random (rng st)
                (nextHead head (direction st) :: snake st) Hunit Hfair)
      as [rounds [newFood [Hloop _]]].
    { pose proof (occupied_le_length (nextHead head (direction st) :: snake st)) as Ho.
      rewrite Hs in *. simpl in Ho, Hlen. simpl. lia. }
    exists rounds. intros fuel Hfuel. eexists.
    rewrite (moveSnake_eat random fuel st head body) by trivial.
    cbv zeta. change (rng (setSpeed _ (setScore _ st))) with (rng st).
    rewrite (Hloop fuel Hfuel). simpl. reflexivity.
  - exists 0%nat. intros fuel _. eexists.
    now apply (moveSnake_step random fuel st head body).
Qed.

Lemma sweep_fair_after_one_round : fairFrom sweep 2.
Proof.
  intros c Hc.
  assert (H : forallb (fun k => samePoint
                                  (proposal sweep (2 + 2 * Nat.modulo (k + 399) 400))
                                  (nth k allCells (mkPoint 0 0)))
                      (seq 0 400) = true)
    by (vm_compute; reflexivity).
  rewrite forallb_forall in H.
  destruct (In_nth allCells c (mkPoint 0 0) Hc) as [k [Hk Hnth]].
  rewrite allCells_length in Hk.
  exists (Nat.modulo (k + 399) 400). rewrite <- Hnth.
  apply samePoint_eq, H, in_seq. lia.
Qed.

Lemma moveSnake_returns_witness :
  eatsFood secondBite = true /\
  exists rounds, forall fuel, (rounds < fuel)%nat ->
    exists st', moveSnake sweep fuel secondBite = Done st'.
Proof.
  split; [destruct secondBite_shape as [_ [_ [_ [_ [_ He]]]]]; exact He|].
  apply (moveSnake_returns sweep secondBite sweep_unit).
  - exact sweep_fair_secondBite.
  - exact secondBite_reachable.
  - replace (snake secondBite)
      with [ mkPoint 10 9; mkPoint 10 10; mkPoint 10 11; mkPoint 10 12 ]
      by (symmetry; exact (proj1 secondBite_shape)).
    simpl. lia.
Defined.

(** ** Whole games *)

Lemma handleInput_frame (i : Input) (st : GameState) :
  saved (handleInput i st) = saved st /\
  currentUser (handleInput i st) = currentUser st /\
  rng (handleInput i st) = rng st /\
  (upToDate st -> upToDate (handleInput i st)).
Proof.
  destruct st as [u s f d g p sc sp r sv su ss]. unfold upToDate.
  destruct i as [key|c]; simpl.
  - unfold handleKeyDown, setIsPaused; simpl.
    repeat match goal with
           | |- context [if ?b then _ else _] => destruct b; simpl
           end; tauto.
  - destruct c; simpl;
      repeat match goal with
             | |- context [if ?b then _ else _] => destruct b; simpl
             end; tauto.
Qed.

Section Games.

Variable random : nat -> Q.

(** What a tick does to the submissions of a game that is not over. *)
Lemma moveSnake_ending (fuel : nat) (st st' : GameState) :
  moveSnake random fuel st = Done st' ->
  isGameOver st = false ->
  currentUser st' = currentUser st /\
  (upToDate st -> upToDate st') /\
  ((isGameOver st' = false /\ saved st' = saved st)
   \/
   (isGameOver st' = true /\ score st' = score st /\
    saved st' = saved st ++ match seenUser st with
                            | Some user => [(username user, seenScore st)]
                            | None => []
                            end)).
Proof.
  unfold moveSnake, upToDate.
  destruct st as [u s f d g p sc sp r sv su ss]; simpl.
  intros Hstep ->.
  destruct p; simpl in Hstep.
  { injection Hstep as <-. simpl. tauto. }
  destruct s as [|head body]; [discriminate|].
  destruct (hitsWall _).
  { injection Hstep as <-. unfold endGame; simpl.
    destruct su; simpl; rewrite ?app_nil_r; tauto. }
  destruct (isOnSnake _ _).
  { injection Hstep as <-. unfold endGame; simpl.
    destruct su; simpl; rewrite ?app_nil_r; tauto. }
  destruct (samePoint _ _).
  - destruct (generateFood random fuel r _) as [[newFood calls]| |];
      simpl in Hstep; try discriminate.
    injection Hstep as <-. simpl. tauto.
  - injection Hstep as <-. simpl. tauto.
Qed.

(** Once the game is over, ticks and inputs change neither the flag nor
    the snake, the score, the speed, the food or the submissions. *)
Lemma Evolves_frozen (st st' : GameState) :
  Evolves random st st' ->
  isGameOver st = true ->
  isGameOver st' = true /\ snake st' = snake st /\ score st' = score st /\
  speed st' = speed st /\ food st' = food st /\ saved st' = saved st.
Proof.
  induction 1 as [st | st fuel st1 st' Hstep _ IH | st i st' _ IH]; intros Hover.
  - split; [exact Hover | repeat split].
  - rewrite moveSnake_idle in Hstep
      by (rewrite Hover; apply orb_true_r).
    injection Hstep as <-. exact (IH Hover).
  - destruct (handleInput_turn i st) as [_ [Hs [Hsc [Hsp [Hf Hg]]]]].
    destruct (handleInput_frame i st) as [Hsv _].
    rewrite <- Hs, <- Hsc, <- Hsp, <- Hf, <- Hsv.
    apply IH. rewrite Hg. exact Hover.
Qed.

End Games.

(** X7: game over is final under ticks and inputs: whatever keys are
    pressed and however many ticks follow, the game stays over and the
    snake, the score, the speed, the food and the submitted scores stay as
    they were. *)
Theorem game_over_is_final (random : nat -> Q) (st st' : GameState) :
  Evolves random st st' ->
  isGameOver st = true ->
  isGameOver st' = true /\ snake st' = snake st /\ score st' = score st /\
  speed st' = speed st /\ food st' = food st /\ saved st' = saved st.
Proof.
  induction 1 as [st | st fuel st1 st' Hstep _ IH | st i st' _ IH]; intros Hover.
  - split; [exact Hover | repeat split].
  - assert (Hidle : isPaused st || isGameOver st = true)
      by (rewrite Hover; apply orb_true_r).
    rewrite (moveSnake_idle random fuel st Hidle) in Hstep.
    injection Hstep as <-. exact (IH Hover).
  - destruct (handleInput_turn i st) as [_ [Hs [Hsc [Hsp [Hf Hg]]]]].
    destruct (handleInput_frame i st) as [Hsv _].
    rewrite <- Hs, <- Hsc, <- Hsp, <- Hf, <- Hsv.
    apply IH. rewrite Hg. exact Hover.
Qed.

Lemma game_over_is_final_witness :
  exists st',
    Evolves stuck (endGame tailBite) st' /\
    direction st' = mkPoint (-1) 0 /\
    isGameOver st' = true /\ snake st' = snake tailBite /\ score st' = 30 /\
    saved st' = [("ada"%string, 30)].
Proof.
  assert (E : Evolves stuck (endGame tailBite)
                (handleInput (KeyDown "ArrowLeft") (endGame tailBite))).
  { apply (ev_tick stuck _ 0 (endGame tailBite)); [reflexivity|].
    apply ev_input with (i := KeyDown "ArrowLeft"). apply ev_stop. }
  destruct (game_over_is_final stuck _ _ E eq_refl)
    as [Hover [Hsnake [Hscore [_ [_ Hsaved]]]]].
  eexists. split; [exact E|]. split; [reflexivity|].
  split; [exact Hover|]. split; [exact Hsnake|]. split; [exact Hscore|].
  exact Hsaved.
Defined.

(** X8: a game submits its score at most once, and what it submits is the
    final score: from a state that is not over and whose tick is up to date,
    ticks and inputs leave the submissions alone while the game runs, and
    once it is over exactly one entry has been added, the final score under
    the user's name, when somebody is logged in, and none when nobody is. *)
Theorem one_submission_per_game (random : nat -> Q) (st st' : GameState) :
  Evolves random st st' ->
  upToDate st ->
  isGameOver st = false ->
  (isGameOver st' = false -> saved st' = saved st) /\
  (isGameOver st' = true ->
   saved st' = saved st ++ match currentUser st with
                           | Some user => [(username user, score st')]
                           | None => []
                           end).
Proof.
  induction 1 as [st | st fuel st1 st' Hstep Hrest IH | st i st' _ IH];
    intros Hup Hrun.
  - split; [reflexivity | congruence].
  - destruct (moveSnake_ending random fuel st st1 Hstep Hrun)
      as [Huser [Hup1 [[Hrun1 Hsaved] | [Hover [Hscore Hsaved]]]]].
    + destruct (IH (Hup1 Hup) Hrun1) as [IHa IHb].
      rewrite <- Huser, <- Hsaved. split; assumption.
    + destruct (Evolves_frozen random st1 st' Hrest Hover)
        as [Hover' [_ [Hscore' [_ [_ Hsaved']]]]].
      split; [congruence|]. intros _.
      destruct Hup as [Hu Hs].
      rewrite Hsaved', Hsaved, Hscore', Hscore, Hu, Hs. reflexivity.
  - destruct (handleInput_frame i st) as [Hsv [Hu [_ Hup']]].
    destruct (handleInput_turn i st) as [_ [_ [_ [_ [_ Hg]]]]].
    rewrite <- Hsv, <- Hu. apply IH; [exact (Hup' Hup) | congruence].
Qed.

Lemma one_submission_per_game_witness :
  exists st',
    Evolves stuck tailBite st' /\
    (isGameOver st' = false -> saved st' = []) /\
    (isGameOver st' = true -> saved st' = [("ada"%string, score st')]).
Proof.
  assert (E : Evolves stuck tailBite (endGame tailBite)).
  { apply (ev_tick stuck tailBite 0 (endGame tailBite)); [reflexivity|].
    apply (ev_tick stuck _ 0 (endGame tailBite)); [reflexivity|].
    apply ev_stop. }
  exists (endGame tailBite). split; [exact E|].
  apply (one_submission_per_game stuck tailBite (endGame tailBite) E).
  - split; reflexivity.
  - reflexivity.
Defined.

(** X9: along any run of ticks and inputs, from any state, every segment
    gained is worth exactly ten points; the snake never gets shorter and the
    score never drops; and from a speed of at least 50 the speed never
    rises and never falls below 50. *)
Theorem score_follows_length (random : nat -> Q) (st st' : GameState) :
  Evolves random st st' ->
  score st' = score st
              + 10 * (Z.of_nat (List.length (snake st'))
                      - Z.of_nat (List.length (snake st))) /\
  (List.length (snake st) <= List.length (snake st'))%nat /\
  score st <= score st' /\
  (50 <= speed st -> 50 <= speed st' <= speed st).
Proof.
  induction 1 as [st | st fuel st1 st' Hstep _ IH | st i st' _ IH].
  - repeat split; lia.
  - destruct IH as [IHs [IHl [IHm IHv]]].
    destruct (moveSnake_cases random fuel st st1 Hstep)
      as [[_ [Hl [Hsc Hsp]]] | [_ [Hl [Hsc Hsp]]]];
      rewrite Hl, Hsc, Hsp in *; repeat split; lia.
  - destruct (handleInput_turn i st) as [_ [Hs [Hsc [Hsp _]]]].
    rewrite <- Hs, <- Hsc, <- Hsp. exact IH.
Qed.

Lemma score_follows_length_witness :
  exists st',
    Evolves sweep scenario st' /\
    score st' = 10 /\ List.length (snake st') = 4%nat /\ speed st' = 148.
Proof.
  assert (E : { st' | Evolves sweep scenario st' /\
                      List.length (snake st') = 4%nat /\ speed st' = 148 }).
  { eexists. split.
    - eapply (ev_tick sweep scenario 1); [reflexivity|]. apply ev_stop.
    - split; reflexivity. }
  destruct E as [st' [E [Hlen Hspeed]]]. exists st'.
  destruct (score_follows_length sweep scenario st' E) as [Hscore _].
  rewrite Hlen in Hscore. simpl in Hscore.
  repeat split; assumption.
Defined.

(** ** Turning *)

Lemma removelast_two (p q : Point) (s : list Point) :
  removelast (p :: q :: s) = p :: removelast (q :: s).
Proof. reflexivity. Qed.

(** X10: with at most one input between two ticks the snake cannot turn
    back into its neck: after a tick of a running game that did not end the
    game, and one input of any kind, the candidate head of the next tick is
    not the segment right behind the head. *)
Theorem one_input_never_bites_neck
  (random : nat -> Q) (fuel : nat) (st st1 : GameState) (i : Input)
  (head neck : Point) (rest : list Point) :
  isDirection (direction st) ->
  isPaused st = false -> isGameOver st = false ->
  moveSnake random fuel st = Done st1 ->
  isGameOver st1 = false ->
  snake (handleInput i st1) = head :: neck :: rest ->
  nextHead head (direction (handleInput i st1)) <> neck.
Proof.
  intros Hdir Hp Hg Hstep Hg1 Hsnake.
  destruct (handleInput_turn i st1) as [Hturn [Hs _]].
  rewrite Hs in Hsnake.
  destruct (moveSnake_inv random fuel st st1 Hstep) as [Hd Hcases].
  assert (Hshape : head = nextHead neck (direction st)).
  { destruct Hcases as [[_ [_ [E | E]]] | [h [body [Hst [_ [_ [_ [_ Hcases]]]]]]]].
    - rewrite Hp, Hg in E. discriminate.
    - congruence.
    - destruct Hcases as [[Hs1 _] | [Hs1 _]].
      + rewrite Hs1, Hst in Hsnake. congruence.
      + rewrite Hs1, Hst in Hsnake.
        destruct body as [|b body]; [discriminate|].
        rewrite removelast_two in Hsnake.
        change (removelast (h :: b :: body)) with (h :: removelast (b :: body))
          in Hsnake.
        congruence. }
  rewrite Hd in Hturn. subst head.
  unfold nextHead, perpendicular in *. destruct neck as [nx ny]; simpl.
  intros E. injection E as Ex Ey.
  destruct Hturn as [Same | [_ Perp]].
  - rewrite Same in Ex, Ey.
    destruct Hdir as [D|[D|[D|D]]]; rewrite D in Ex, Ey; simpl in *; lia.
  - destruct Hdir as [D|[D|[D|D]]]; rewrite D in Ex, Ey, Perp;
      cbn [x y] in Ex, Ey, Perp; lia.
Qed.

Lemma one_input_never_bites_neck_witness :
  exists st1,
    moveSnake sweep 1 scenario = Done st1 /\
    nextHead (mkPoint 10 9) (direction (handleInput (KeyDown "ArrowDown") st1))
    <> mkPoint 10 10.
Proof.
  eexists. split; [reflexivity|].
  eapply (one_input_never_bites_neck sweep 1 scenario _ (KeyDown "ArrowDown")
            (mkPoint 10 9) (mkPoint 10 10) [ mkPoint 10 11; mkPoint 10 12 ]);
    try reflexivity.
  left. reflexivity.
Defined.

(** X11: a repeated directional input does nothing more: handling the same
    arrow key or the same button twice in a row leaves the state that
    handling it once leaves. *)
Theorem repeated_input_is_idle (i : Input) (st : GameState) :
  i <> KeyDown " " ->
  handleInput i (handleInput i st) = handleInput i st.
Proof.
  intros Hkey. destruct st as [u s f d g p sc sp r sv su ss].
  assert (V : forall e, y e <> 0 ->
    let st := mkGameState u s f d g p sc sp r sv su ss in
    let st1 := if y (direction st) =? 0 then setDirection e st else st in
    (if y (direction st1) =? 0 then setDirection e st1 else st1) = st1).
  { intros e He. cbv zeta. simpl.
    destruct (y d =? 0) eqn:G; simpl.
    - apply Z.eqb_neq in He. rewrite He. reflexivity.
    - rewrite G. reflexivity. }
  assert (H : forall e, x e <> 0 ->
    let st := mkGameState u s f d g p sc sp r sv su ss in
    let st1 := if x (direction st) =? 0 then setDirection e st else st in
    (if x (direction st1) =? 0 then setDirection e st1 else st1) = st1).
  { intros e He. cbv zeta. simpl.
    destruct (x d =? 0) eqn:G; simpl.
    - apply Z.eqb_neq in He. rewrite He. reflexivity.
    - rewrite G. reflexivity. }
  cbv zeta in V, H.
  destruct i as [key|c].
  - unfold handleInput, handleKeyDown.
    destruct (key =? "ArrowUp")%string; [apply V; discriminate|].
    destruct (key =? "ArrowDown")%string; [apply V; discriminate|].
    destruct (key =? "ArrowLeft")%string; [apply H; discriminate|].
    destruct (key =? "ArrowRight")%string; [apply H; discriminate|].
    destruct (String.eqb_spec key " ") as [->|_]; [contradiction | reflexivity].
  - destruct c; unfold handleInput, onClick;
      first [apply V | apply H]; discriminate.
Qed.

Lemma repeated_input_is_idle_witness :
  handleInput (Click ChevronLeft) (handleInput (Click ChevronLeft) scenario)
  = handleInput (Click ChevronLeft) scenario /\
  direction (handleInput (Click ChevronLeft) scenario) = mkPoint (-1) 0.
Proof.
  split; [|reflexivity].
  apply (repeated_input_is_idle (Click ChevronLeft) scenario). discriminate.
Defined.

(** ** Frames *)

(** X12: over any sequence of frame callbacks that all return, the loop
    makes at most one tick per frame, whatever the timestamps: the tick
    count grows by the number of ticks made, which is at most the number of
    frames, and the game the frames leave is exactly what that many
    consecutive ticks make of the game they began with. *)
Theorem runFrames_no_bursts
  (random : nat -> Q) (frames : list (nat * Q))
  (clock clock' : Clock) (st st' : GameState) :
  runFrames random frames (clock, st) = Done (clock', st') ->
  exists fuels,
    tickMany random fuels st = Done st' /\
    ticks clock' = (ticks clock + List.length fuels)%nat /\
    (List.length fuels <= List.length frames)%nat.
Proof.
  revert clock st. induction frames as [|[fuel time] frames IH]; intros clock st H.
  - simpl in H. injection H as <- <-. exists []. simpl. repeat split; lia.
  - simpl in H. unfold loop in H.
    destruct (Qgtb (time - lastUpdateTimeRef clock) (inject_Z (speed st))).
    + destruct (moveSnake random fuel st) as [st1| |] eqn:Hstep;
        simpl in H; try discriminate.
      apply IH in H as [fuels [Hticks [Hcount Hlen]]]. simpl in Hcount.
      exists (fuel :: fuels). simpl. rewrite Hstep. simpl.
      split; [exact Hticks|]. split; lia.
    + simpl in H. apply IH in H as [fuels [Hticks [Hcount Hlen]]].
      exists fuels. simpl. split; [exact Hticks|]. split; lia.
Qed.

Lemma runFrames_no_bursts_witness :
  exists clock' st',
    runFrames sweep [(1%nat, 16%Q); (1%nat, 100000%Q); (1%nat, 100016%Q)]
      (mkClock 0 0, scenario) = Done (clock', st') /\
    ticks clock' = 1%nat /\ score st' = 10 /\
    exists fuels,
      tickMany sweep fuels scenario = Done st' /\
      ticks clock' = (ticks (mkClock 0 0) + List.length fuels)%nat /\
      (List.length fuels <= 3)%nat.
Proof.
  eexists. eexists. split; [reflexivity|]. split; [reflexivity|].
  split; [reflexivity|].
  apply (runFrames_no_bursts sweep
           [(1%nat, 16%Q); (1%nat, 100000%Q); (1%nat, 100016%Q)]).
  reflexivity.
Defined.

(** ** Starting over *)

(** X13: from any state, a game over included, [resetGame] returns (for a
    random source in the unit interval that proposes every cell at some
    point) a running game: the initial snake heading up, score 0, speed 150,
    the food on a grid cell off the snake.  It keeps the user and the scores
    submitted so far, and the tick it leaves is up to date. *)
Theorem resetGame_fresh_game (random : nat -> Q) (st : GameState) :
  unitInterval random ->
  fairFrom random (rng st) ->
  exists rounds st',
    (forall fuel, (rounds < fuel)%nat -> resetGame random fuel st = Done st') /\
    snake st' = INITIAL_SNAKE /\ direction st' = INITIAL_DIRECTION /\
    score st' = 0 /\ speed st' = 150 /\
    isGameOver st' = false /\ isPaused st' = false /\
    (0 <= x (food st') < 20 /\ 0 <= y (food st') < 20) /\
    ~ In (food st') INITIAL_SNAKE /\
    currentUser st' = currentUser st /\ saved st' = saved st /\
    upToDate st'.
Proof.
  intros Hunit Hfair.
  destruct (food_loop_returns random (rng st) INITIAL_SNAKE Hunit Hfair)
    as [rounds [newFood [Hloop [Hx [Hy [Hfree _]]]]]].
  { pose proof (occupied_le_length INITIAL_SNAKE). simpl in *. lia. }
  exists rounds.
  destruct st as [u s f d g p sc sp r sv su ss]. simpl in Hloop.
  eexists. split.
  - intros fuel Hfuel. unfold resetGame.
    destruct g, p; simpl; rewrite (Hloop fuel Hfuel); simpl; reflexivity.
  - unfold upToDate. destruct g, p; simpl;
      (do 6 (split; [reflexivity|])); (split; [split; assumption|]);
      (split; [exact Hfree|]); repeat split.
Qed.

Lemma resetGame_fresh_game_witness :
  exists rounds st',
    (forall fuel, (rounds < fuel)%nat ->
       resetGame sweep fuel (endGame tailBite) = Done st') /\
    snake st' = INITIAL_SNAKE /\ isGameOver st' = false /\
    saved st' = [("ada"%string, 30)].
Proof.
  destruct (resetGame_fresh_game sweep (endGame tailBite) sweep_unit sweep_fair)
    as [rounds [st' [Hrun [Hsnake [_ [_ [_ [Hover [_ [_ [_ [_ [Hsaved _]]]]]]]]]]]]].
  exists rounds, st'. repeat split; assumption.
Defined.

(** ** Accounts *)

Module AccountsFacts.

Import Storage Accounts.

#[local] Open Scope string_scope.

Lemma orElse_nonempty (e : option string) (fallback : string) :
  fallback <> "" -> orElse e fallback <> "".
Proof.
  intros Hf. unfold orElse. destruct e as [m|]; [|exact Hf].
  destruct (String.eqb_spec m ""); assumption.
Qed.

Lemma rowsOf_app (rows : list (string * string)) (h : Health) (u v p : string) :
  rowsOf (mkAccountStore (rows ++ [(u, p)])%list h) v
  = (rowsOf (mkAccountStore rows h) v ++ (if (u =? v) then [(u, p)] else []))%list.
Proof.
  unfold rowsOf; simpl. rewrite filter_app. reflexivity.
Qed.

(** X14: registering and logging in agree (on a store that keeps its rows
    as the spec describes).  [registerUser] succeeds exactly on a healthy
    store that has no row for the username; after it has succeeded,
    [loginUser] with the same username and password succeeds with that
    username as token, and with any other password it answers "Incorrect
    password".  A username already taken is refused with "User already
    exists" and the store is left as it was.  Registering one user never
    changes what [loginUser] answers for another. *)
Theorem register_then_login (store : AccountStore) (u p : string) :
  (success (fst (registerUser store u p)) = true <->
   health store = Healthy /\ rowsOf store u = []) /\
  (success (fst (registerUser store u p)) = true ->
   loginUser (snd (registerUser store u p)) u p
   = mkLoginResult true (Some (mkUserToken u)) None /\
   forall p', p' <> p ->
     loginUser (snd (registerUser store u p)) u p'
     = mkLoginResult false None (Some "Incorrect password")) /\
  (health store = Healthy -> rowsOf store u <> [] ->
   registerUser store u p
   = (mkRegisterResult false (Some "User already exists"), store)) /\
  (forall v q, v <> u ->
   loginUser (snd (registerUser store u p)) v q = loginUser store v q).
Proof.
  destruct store as [rows h].
  unfold registerUser, insertRow; simpl.
  destruct h as [|e|m]; simpl.
  - destruct (rowsOf (mkAccountStore rows Healthy) u) as [|r rs] eqn:Hrows; simpl.
    + split; [tauto|]. split; [|split; [intros _ Hne; contradiction|]].
      * intros _. unfold loginUser, selectSingle; simpl.
        rewrite rowsOf_app, Hrows, String.eqb_refl. simpl.
        rewrite String.eqb_refl. simpl. split; [reflexivity|].
        intros p' Hne. destruct (String.eqb_spec p p') as [E|_]; [congruence|].
        reflexivity.
      * intros v q Hne. unfold loginUser, selectSingle; simpl.
        rewrite rowsOf_app.
        destruct (String.eqb_spec u v) as [E|_]; [congruence|].
        rewrite app_nil_r. reflexivity.
    + split; [split; [discriminate | intros [_ E]; discriminate]|].
      split; [discriminate|]. split; [reflexivity|]. reflexivity.
  - destruct (code e =? "23505");
      (split; [split; [discriminate | intros [E _]; discriminate]|]);
      (split; [discriminate|]); (split; [discriminate | reflexivity]).
  - split; [split; [discriminate | intros [E _]; discriminate]|].
    split; [discriminate|]. split; [discriminate | reflexivity].
Qed.

Lemma register_then_login_witness :
  loginUser (snd (registerUser (mkAccountStore [("bob", "x")] Healthy) "ada" "pw"))
            "ada" "pw"
  = mkLoginResult true (Some (mkUserToken "ada")) None /\
  registerUser (mkAccountStore [("bob", "x")] Healthy) "bob" "pw"
  = (mkRegisterResult false (Some "User already exists"),
     mkAccountStore [("bob", "x")] Healthy).
Proof.
  pose proof (register_then_login (mkAccountStore [("bob", "x")] Healthy) "ada" "pw")
    as [_ [Hok _]].
  pose proof (register_then_login (mkAccountStore [("bob", "x")] Healthy) "bob" "pw")
    as [_ [_ [Hdup _]]].
  split.
  - apply Hok. reflexivity.
  - apply Hdup; [reflexivity | discriminate].
Defined.

(** X15: whatever the store answers and whatever [trim] is, the form
    either hands [onLogin] a token that carries exactly the username typed
    in, showing no error, or it hands over nothing and shows a message that
    is not empty.  A token is handed over exactly when both fields trim to
    something and the request of the current mode ([loginUser] or
    [registerUser]) reports success; when a field trims to nothing the
    message is "Username and password are required". *)
Theorem handleSubmit_outcome
  (trim : string -> string) (store : AccountStore) (form : AuthForm) :
  match fst (handleSubmit trim store form) with
  | (form', Some t) =>
      t = mkUserToken (Accounts.username form) /\ formError form' = "" /\
      trim (Accounts.username form) <> "" /\ trim (password form) <> "" /\
      (if isLogin form
       then Storage.success
              (loginUser store (Accounts.username form) (password form)) = true
       else success
              (fst (registerUser store (Accounts.username form) (password form)))
            = true)
  | (form', None) =>
      formError form' <> "" /\
      (trim (Accounts.username form) = "" \/ trim (password form) = "" ->
       formError form' = "Username and password are required") /\
      (trim (Accounts.username form) <> "" -> trim (password form) <> "" ->
       if isLogin form
       then Storage.success
              (loginUser store (Accounts.username form) (password form)) = false
       else success
              (fst (registerUser store (Accounts.username form) (password form)))
            = false)
  end.
Proof.
  unfold handleSubmit, setError; simpl.
  destruct (String.eqb_spec (trim (Accounts.username form)) "") as [Eu|Nu]; simpl.
  { split; [discriminate|]. split; [reflexivity | contradiction]. }
  destruct (String.eqb_spec (trim (password form)) "") as [Ep|Np]; simpl.
  { split; [discriminate|]. split; [reflexivity | contradiction]. }
  destruct (isLogin form) eqn:Hmode.
  - pose proof (StorageFacts.loginUser_on_cases
                  (selectSingle store (Accounts.username form))
                  (Accounts.username form) (password form)) as [_ [Hok _]].
    fold (loginUser store (Accounts.username form) (password form)) in Hok.
    destruct (Storage.success (loginUser store (Accounts.username form) (password form)))
      eqn:Hs.
    + rewrite (Hok eq_refl). simpl. tauto.
    + simpl. split; [apply orElse_nonempty; discriminate|]. tauto.
  - destruct (registerUser store (Accounts.username form) (password form))
      as [result store'].
    simpl. destruct (success result); simpl.
    + tauto.
    + split; [apply orElse_nonempty; discriminate|]. tauto.
Qed.

Lemma handleSubmit_outcome_witness :
  (fst (handleSubmit (fun s => s) (mkAccountStore [("ada", "pw")] Healthy)
          (mkAuthForm true "ada" "pq" ""))
   = (mkAuthForm true "ada" "pq" "Incorrect password", None)) /\
  (fst (handleSubmit (fun s => s) (mkAccountStore [("ada", "pw")] Healthy)
          (mkAuthForm false "bob" "x" "old message"))
   = (mkAuthForm false "bob" "x" "", Some (mkUserToken "bob"))) /\
  formError (fst (fst (handleSubmit (fun s => s)
                         (mkAccountStore [("ada", "pw")] Healthy)
                         (mkAuthForm true "ada" "pq" "")))) <> "".
Proof.
  split; [reflexivity|]. split; [reflexivity|].
  pose proof (handleSubmit_outcome (fun s => s)
                (mkAccountStore [("ada", "pw")] Healthy)
                (mkAuthForm true "ada" "pq" "")) as H.
  destruct (fst (handleSubmit (fun s => s) (mkAccountStore [("ada", "pw")] Healthy)
                   (mkAuthForm true "ada" "pq" ""))) as [form' [t|]] eqn:E.
  - discriminate E.
  - simpl. exact (proj1 H).
Defined.

End AccountsFacts.
